(** * storage_insights.py: a shallow embedding and its verified properties

    The program is a command-line client: it reads an API key and a tenant
    id from a credentials file, exchanges the key for a token, fetches the
    tenant's storage systems and renders them as an aligned text table.

    Python values are embedded as follows.
    - [str] is a list of Unicode code points ([Z]); [len] is [length].
    - [bytes] is a list of octets ([Z] in 0..255).
    - [int] is [Z]; [float] is an IEEE binary64 value ([spec_float]).
    - objects decoded from JSON (and [None]) are the inductive [value];
      a [dict] is an association list in insertion order.
    - exceptions are the inductive [exn]; a computation that may raise
      returns [result]; code with effects runs in the monad [M] over
      [world] (file system, console, network log). *)

From Stdlib Require Import ZArith List String Ascii Bool Lia DecimalString SpecFloat FunInd.
Import ListNotations.
Local Open Scope Z_scope.
Set Warnings "-register-all".

(* ------------------------------------------------------------------ *)
(** ** Strings *)

Definition str := list Z.
Definition bytes := list Z.

(** A literal of the source, given here as an ASCII string. *)
Definition lit (s : string) : str :=
  map (fun a => Z.of_N (N_of_ascii a)) (list_ascii_of_string s).

Definition len {A} (s : list A) : Z := Z.of_nat (List.length s).

Fixpoint str_eqb (a b : str) : bool :=
  match a, b with
  | [], [] => true
  | x :: a', y :: b' => (x =? y) && str_eqb a' b'
  | _, _ => false
  end.

(** [sep.join(parts)] *)
Fixpoint join (sep : str) (parts : list str) : str :=
  match parts with
  | [] => []
  | [p] => p
  | p :: rest => p ++ sep ++ join sep rest
  end.

(** [c * n] for a one-character string [c] *)
Definition repeat_char (c : Z) (n : Z) : str := repeat c (Z.to_nat n).

(** [str(n)] for an int *)
Definition str_of_int (n : Z) : str := lit (NilZero.string_of_int (Z.to_int n)).

(** [s.startswith(p)] *)
Fixpoint startswith (p s : str) : bool :=
  match p, s with
  | [], _ => true
  | x :: p', y :: s' => (x =? y) && startswith p' s'
  | _ :: _, [] => false
  end.

(** [c in s] for a one-character string [c] *)
Definition contains_char (c : Z) (s : str) : bool := existsb (Z.eqb c) s.

(** [s.split(c, 1)] when [c in s]: the text before the first [c] and the
    text after it. *)
Fixpoint split_once (c : Z) (s : str) : str * str :=
  match s with
  | [] => ([], [])
  | x :: s' =>
      if x =? c then ([], s')
      else let '(a, b) := split_once c s' in (x :: a, b)
  end.

(** [str.isspace] on one code point: the Unicode white-space characters. *)
Definition isspace (c : Z) : bool :=
  ((9 <=? c) && (c <=? 13)) || ((28 <=? c) && (c <=? 32))
  || (c =? 133) || (c =? 160) || (c =? 5760)
  || ((8192 <=? c) && (c <=? 8202))
  || (c =? 8232) || (c =? 8233) || (c =? 8239) || (c =? 8287) || (c =? 12288).

Fixpoint lstrip_by (sp : Z -> bool) (s : str) : str :=
  match s with
  | [] => []
  | c :: s' => if sp c then lstrip_by sp s' else s
  end.

Definition rstrip_by (sp : Z -> bool) (s : str) : str := rev (lstrip_by sp (rev s)).

Definition strip_by (sp : Z -> bool) (s : str) : str := rstrip_by sp (lstrip_by sp s).

(** [s.strip()] *)
Definition strip (s : str) : str := strip_by isspace s.

(** The line boundaries of [str.splitlines]. *)
Definition is_linebreak (c : Z) : bool :=
  ((10 <=? c) && (c <=? 13)) || ((28 <=? c) && (c <=? 30))
  || (c =? 133) || (c =? 8232) || (c =? 8233).

(** [s.splitlines()]: [cur] is the line being read, reversed. A carriage
    return followed by a line feed is one boundary; no empty last line. *)
Fixpoint splitlines_from (cur : str) (s : str) : list str :=
  match s with
  | [] => match cur with [] => [] | _ => [rev cur] end
  | c :: s' =>
      if is_linebreak c then
        match c, s' with
        | 13, 10 :: s'' => rev cur :: splitlines_from [] s''
        | _, _ => rev cur :: splitlines_from [] s'
        end
      else splitlines_from (c :: cur) s'
  end.

Definition splitlines (s : str) : list str := splitlines_from [] s.

Definition is_ascii (s : str) : bool := forallb (fun c => (0 <=? c) && (c <? 128)) s.

Definition ascii_lower (c : Z) : Z :=
  if (65 <=? c) && (c <=? 90) then c + 32 else c.

(* ------------------------------------------------------------------ *)
(** ** Values, exceptions *)

(** Objects decoded by [json.loads], and [None]. *)
Inductive value :=
| VNone
| VBool (b : bool)
| VInt (n : Z)
| VFloat (f : spec_float)
| VStr (s : str)
| VList (xs : list value)
| VDict (items : list (str * value)).

(** Exceptions raised by the interpreter or the standard library; their
    messages are not modelled. *)
Inductive builtin_exn :=
| KeyError | TypeError | ValueError_ | OverflowError | AttributeError
| UnicodeDecodeError | UnicodeEncodeError | LookupError | RecursionError.

(** Exceptions: the three the program raises itself carry their message. *)
Inductive exn :=
| FileNotFoundError (msg : str)
| ValueError (msg : str)
| RuntimeError (msg : str)
| Builtin (e : builtin_exn).

Inductive result (A : Type) :=
| Ok (a : A)
| Raise (e : exn).
Arguments Ok {A} a.
Arguments Raise {A} e.

Definition rbind {A B} (r : result A) (k : A -> result B) : result B :=
  match r with
  | Ok a => k a
  | Raise e => Raise e
  end.

Declare Scope result_scope.
Delimit Scope result_scope with result.
Notation "x <- r ;; k" := (rbind r (fun x => k))
  (at level 61, r at next level, right associativity) : result_scope.
Notation "' pat <- r ;; k" := (rbind r (fun x => match x with pat => k end))
  (at level 61, pat pattern, r at next level, right associativity) : result_scope.

(** [bool(v)] *)
Definition truthy (v : value) : bool :=
  match v with
  | VNone => false
  | VBool b => b
  | VInt n => negb (n =? 0)
  | VFloat (S754_zero _) => false
  | VFloat _ => true
  | VStr [] => false
  | VStr _ => true
  | VList [] => false
  | VList _ => true
  | VDict [] => false
  | VDict _ => true
  end.

(** Lookup in a dict. *)
Fixpoint lookup (k : str) (items : list (str * value)) : option value :=
  match items with
  | [] => None
  | (k', v) :: rest => if str_eqb k k' then Some v else lookup k rest
  end.

(** [d.get(k)] and [d.get(k, default)] on a value [d]; only a dict has
    the method. *)
Definition get (d : value) (k : str) (default : value) : result value :=
  match d with
  | VDict items =>
      Ok match lookup k items with
         | Some v => v
         | None => default
         end
  | _ => Raise (Builtin AttributeError)
  end.

(** [d[k]] for a string key [k] *)
Definition subscript (d : value) (k : str) : result value :=
  match d with
  | VDict items =>
      match lookup k items with
      | Some v => Ok v
      | None => Raise (Builtin KeyError)
      end
  | _ => Raise (Builtin TypeError)
  end.

(* ------------------------------------------------------------------ *)
(** ** Floats and [datetime] *)

Definition prec : Z := 53.
Definition emax : Z := 1024.

(** [float(n)] for an int that is exactly representable, and the exact
    operand of an int division otherwise. *)
Definition exact_of_int (n : Z) : spec_float :=
  match n with
  | Z0 => S754_zero false
  | Zpos p => S754_finite false p 0
  | Zneg p => S754_finite true p 0
  end.

(** [a / b] on ints: the correctly rounded quotient. *)
Definition int_truediv (a b : Z) : result spec_float :=
  match SFdiv prec emax (exact_of_int a) (exact_of_int b) with
  | S754_infinity _ => Raise (Builtin OverflowError)
  | q => Ok q
  end.

(** [ms / 1000] *)
Definition div_1000 (ms : value) : result spec_float :=
  match ms with
  | VInt n => int_truediv n 1000
  | VBool b => int_truediv (if b then 1 else 0) 1000
  | VFloat f => Ok (SFdiv prec emax f (exact_of_int 1000))
  | _ => Raise (Builtin TypeError)
  end.

(** The nearest integer to [m * 2^e], ties to even, for [0 <= m]. *)
Definition round_half_even (m e : Z) : Z :=
  if 0 <=? e then m * 2 ^ e
  else
    let q := m / 2 ^ (- e) in
    let r := m mod 2 ^ (- e) in
    match 2 * r ?= 2 ^ (- e) with
    | Lt => q
    | Gt => q + 1
    | Eq => if Z.even q then q else q + 1
    end.

(** Seconds and microseconds of a float timestamp: the integer part and
    the fraction are separated, the fraction is scaled by [1e6] in float
    arithmetic and rounded half to even, then normalised to 0..999999. *)
Definition timeval_of_float (t : spec_float) : result (Z * Z) :=
  match t with
  | S754_nan => Raise (Builtin ValueError_)
  | S754_infinity _ => Raise (Builtin OverflowError)
  | S754_zero _ => Ok (0, 0)
  | S754_finite s m e =>
      let intpart := if 0 <=? e then Zpos m * 2 ^ e else Zpos m / 2 ^ (- e) in
      let fracm := if 0 <=? e then 0 else Zpos m mod 2 ^ (- e) in
      let floatpart := binary_normalize prec emax (cond_Zopp s fracm) e s in
      let scaled := SFmul prec emax floatpart (exact_of_int 1000000) in
      let us :=
        match scaled with
        | S754_finite s' m' e' => cond_Zopp s' (round_half_even (Zpos m') e')
        | _ => 0
        end in
      let sec := cond_Zopp s intpart in
      let '(sec, us) :=
        if 1000000 <=? us then (sec + 1, us - 1000000)
        else if us <? 0 then (sec - 1, us + 1000000)
        else (sec, us) in
      if (sec <? - 2 ^ 63) || (2 ^ 63 <=? sec)
      then Raise (Builtin OverflowError)
      else Ok (sec, us)
  end.

Record datetime := {
  year : Z; month : Z; day : Z;
  hour : Z; minute : Z; second : Z; microsecond : Z
}.

(** The proleptic Gregorian date of a day count since 1970-01-01. *)
Definition civil_from_days (days : Z) : Z * Z * Z :=
  let z := days + 719468 in
  let era := z / 146097 in
  let doe := z - era * 146097 in
  let yoe := (doe - doe / 1460 + doe / 36524 - doe / 146096) / 365 in
  let doy := doe - (365 * yoe + yoe / 4 - yoe / 100) in
  let mp := (5 * doy + 2) / 153 in
  let d := doy - (153 * mp + 2) / 5 + 1 in
  let m := if mp <? 10 then mp + 3 else mp - 9 in
  let y := yoe + era * 400 + (if m <=? 2 then 1 else 0) in
  (y, m, d).

(** [datetime.fromtimestamp(t, tz=timezone.utc)]; a year outside 1..9999
    raises. *)
Definition fromtimestamp_utc (t : spec_float) : result datetime :=
  ('(sec, us) <- timeval_of_float t ;;
   let '(y, m, d) := civil_from_days (sec / 86400) in
   let rem := sec mod 86400 in
   if (y <? 1) || (9999 <? y) then Raise (Builtin ValueError_)
   else Ok {| year := y; month := m; day := d;
              hour := rem / 3600; minute := rem mod 3600 / 60;
              second := rem mod 60; microsecond := us |})%result.

(** ["%0wd" % n] for [0 <= n] *)
Definition zfill (w : nat) (n : Z) : str :=
  let d := str_of_int n in
  repeat 48 (w - List.length d) ++ d.

(** [dt.isoformat()] of an aware datetime in UTC *)
Definition isoformat (dt : datetime) : str :=
  zfill 4 (year dt) ++ lit "-" ++ zfill 2 (month dt) ++ lit "-" ++ zfill 2 (day dt)
  ++ lit "T" ++ zfill 2 (hour dt) ++ lit ":" ++ zfill 2 (minute dt)
  ++ lit ":" ++ zfill 2 (second dt)
  ++ (if microsecond dt =? 0 then [] else lit "." ++ zfill 6 (microsecond dt))
  ++ lit "+00:00".


(* ------------------------------------------------------------------ *)
(** ** The platform

    Library functions whose tables or algorithms are not part of this
    repository, and the remote server. *)

Record request := {
  req_url : str;
  req_method : str;
  req_headers : list (str * value);
  req_body : option bytes;
  req_timeout : Z
}.

(** What the server answers to a request, once redirects are followed:
    a status line with the charset of the content type and the body, or
    no answer at all. *)
Inductive reply :=
| Response (status : Z) (charset : option str) (body : bytes)
| Unreachable (reason : str).

(** What [json.loads] does with a text: it returns the decoded value, or
    raises [JSONDecodeError] with a message, or raises something else (a
    plain [ValueError] for an integer of more than 4300 digits, a
    [RecursionError] for a text nested too deep). *)
Inductive loaded :=
| Decoded (v : value)
| JSONDecodeError (msg : str)
| LoadError (e : builtin_exn).

Class Platform := {
  (** [repr] of a float, a list or a dict *)
  repr_value : value -> str;
  (** [json.loads] *)
  json_loads : str -> loaded;
  (** [json.dumps(v, indent=2)] *)
  json_dumps : value -> str;
  (** [str.lower] on a string with a non-ASCII character *)
  lower_nonascii : str -> str;
  (** [bytes.decode(charset)] for a charset other than UTF-8 *)
  decode_other : str -> bytes -> result str;
  (** the server *)
  server : request -> reply
}.

Section Rendering.
Context {P : Platform}.

(** [str(v)] *)
Definition py_str (v : value) : str :=
  match v with
  | VNone => lit "None"
  | VBool true => lit "True"
  | VBool false => lit "False"
  | VInt n => str_of_int n
  | VStr s => s
  | _ => repr_value v
  end.

(** The literal returned for a falsy timestamp: the three code points
    U+00E2, U+20AC, U+201D of the source text. *)
Definition placeholder : str := [226; 8364; 8221].

Definition _format_ts (ms : value) : str :=
  if negb (truthy ms) then placeholder
  else
    match (t <- div_1000 ms ;; fromtimestamp_utc t)%result with
    | Ok dt => isoformat dt
    | Raise _ => py_str ms
    end.

(** A row of the table: a tuple of four strings. *)
Definition row := (str * str * str * str)%type.

Definition cells (r : row) : list str :=
  let '(a, b, c, d) := r in [a; b; c; d].

Definition headers : row :=
  (lit "Name", lit "Last Successful Probe (UTC)",
   lit "Last Successful Monitor (UTC)", lit "Condition").

(** The first loop of [build_table]: [idx] counts the items seen; the
    loop stops at the limit before it touches the item. *)
Fixpoint collect_rows (limit : option Z) (idx : Z) (items : list value)
  : result (list row) :=
  match items with
  | [] => Ok []
  | item :: rest =>
      if match limit with
         | Some k => k <=? idx
         | None => false
         end
      then Ok []
      else
        (name <- get item (lit "name") (VStr []) ;;
         probe <- get item (lit "last_successful_probe") VNone ;;
         monitor <- get item (lit "last_successful_monitor") VNone ;;
         condition <- get item (lit "condition") (VStr []) ;;
         rows <- collect_rows limit (idx + 1) rest ;;
         Ok ((py_str name, _format_ts probe, _format_ts monitor, py_str condition)
               :: rows))%result
  end.

(** [l[i] = x] for an index within the list *)
Fixpoint list_set {A} (l : list A) (i : nat) (x : A) : list A :=
  match l, i with
  | [] , _ => []
  | _ :: l', O => x :: l'
  | y :: l', S i' => y :: list_set l' i' x
  end.

(** [enumerate(l)], counting from [i] *)
Fixpoint enumerate_from {A} (i : nat) (l : list A) : list (nat * A) :=
  match l with
  | [] => []
  | x :: l' => (i, x) :: enumerate_from (S i) l'
  end.

(** The inner loop over the columns of one row. *)
Definition widen (widths : list Z) (r : row) : list Z :=
  fold_left
    (fun w '(idx, column) => list_set w idx (Z.max (nth idx w 0) (len column)))
    (enumerate_from 0 (cells r)) widths.

Definition column_widths (rows : list row) : list Z :=
  fold_left widen rows (map len (cells headers)).

(** ["{:w}".format(s)]: [s] padded with spaces on the right to width [w] *)
Definition format_field (w : Z) (s : str) : str :=
  s ++ repeat_char 32 (w - len s).

(** [fmt.format( *r)] where [fmt] joins one field per width with [" | "] *)
Definition fmt_format (widths : list Z) (r : row) : str :=
  join (lit " | ") (map (fun '(w, s) => format_field w s) (combine widths (cells r))).

Definition divider (widths : list Z) : str :=
  join (lit "-+-") (map (repeat_char 45) widths).

(** The list [lines] of [build_table]. *)
Definition table_lines (rows : list row) : list str :=
  let widths := column_widths rows in
  [fmt_format widths headers; divider widths] ++ map (fmt_format widths) rows.

Definition build_table (items : list value) (limit : option Z) : result str :=
  (rows <- collect_rows limit 0 items ;;
   Ok (join [10] (table_lines rows)))%result.

End Rendering.

(* ------------------------------------------------------------------ *)
(** ** UTF-8 and URL quoting *)

Module Utf8.

(** The octets of one code point; surrogates and values outside
    0..0x10FFFF have none. *)
Definition encode_char (c : Z) : option bytes :=
  if c <? 0 then None
  else if c <? 128 then Some [c]
  else if c <? 2048 then Some [192 + c / 64; 128 + c mod 64]
  else if c <? 65536 then
    if (55296 <=? c) && (c <=? 57343) then None
    else Some [224 + c / 4096; 128 + c / 64 mod 64; 128 + c mod 64]
  else if c <? 1114112 then
    Some [240 + c / 262144; 128 + c / 4096 mod 64; 128 + c / 64 mod 64; 128 + c mod 64]
  else None.

(** [s.encode("utf-8")] *)
Fixpoint encode (s : str) : result bytes :=
  match s with
  | [] => Ok []
  | c :: s' =>
      match encode_char c with
      | None => Raise (Builtin UnicodeEncodeError)
      | Some bs => (rest <- encode s' ;; Ok (bs ++ rest))%result
      end
  end.

Definition is_cont (b : Z) : bool := (128 <=? b) && (b <=? 191).

(** The second octet of a three-octet form: no overlong form, no
    surrogate. *)
Definition second_of_3 (b0 b1 : Z) : bool :=
  is_cont b1 && negb ((b0 =? 224) && (b1 <? 160)) && negb ((b0 =? 237) && (160 <=? b1)).

(** The second octet of a four-octet form: no overlong form, nothing
    above U+10FFFF. *)
Definition second_of_4 (b0 b1 : Z) : bool :=
  is_cont b1 && negb ((b0 =? 240) && (b1 <? 144)) && negb ((b0 =? 244) && (144 <=? b1)).

Definition emit (c : Z) (rest : result str) : result str :=
  (s <- rest ;; Ok (c :: s))%result.

(** An ill-formed sequence: dropped when errors are ignored. *)
Definition malformed (ignore : bool) (rest : result str) : result str :=
  if ignore then rest else Raise (Builtin UnicodeDecodeError).

(** [bs.decode("utf-8")] and [bs.decode("utf-8", "ignore")]. An ill-formed
    sequence ends before the first octet that cannot continue it, and
    decoding resumes at that octet. *)
Function decode (ignore : bool) (bs : bytes) {struct bs} : result str :=
  match bs with
  | [] => Ok []
  | b0 :: r0 =>
      if b0 <? 128 then emit b0 (decode ignore r0)
      else if (194 <=? b0) && (b0 <=? 223) then
        match r0 with
        | b1 :: r1 =>
            if is_cont b1
            then emit ((b0 - 192) * 64 + (b1 - 128)) (decode ignore r1)
            else malformed ignore (decode ignore r0)
        | [] => malformed ignore (Ok [])
        end
      else if (224 <=? b0) && (b0 <=? 239) then
        match r0 with
        | b1 :: r1 =>
            if second_of_3 b0 b1 then
              match r1 with
              | b2 :: r2 =>
                  if is_cont b2
                  then emit ((b0 - 224) * 4096 + (b1 - 128) * 64 + (b2 - 128))
                            (decode ignore r2)
                  else malformed ignore (decode ignore r1)
              | [] => malformed ignore (Ok [])
              end
            else malformed ignore (decode ignore r0)
        | [] => malformed ignore (Ok [])
        end
      else if (240 <=? b0) && (b0 <=? 244) then
        match r0 with
        | b1 :: r1 =>
            if second_of_4 b0 b1 then
              match r1 with
              | b2 :: r2 =>
                  if is_cont b2 then
                    match r2 with
                    | b3 :: r3 =>
                        if is_cont b3
                        then emit ((b0 - 240) * 262144 + (b1 - 128) * 4096
                                   + (b2 - 128) * 64 + (b3 - 128))
                                  (decode ignore r3)
                        else malformed ignore (decode ignore r2)
                    | [] => malformed ignore (Ok [])
                    end
                  else malformed ignore (decode ignore r1)
              | [] => malformed ignore (Ok [])
              end
            else malformed ignore (decode ignore r0)
        | [] => malformed ignore (Ok [])
        end
      else malformed ignore (decode ignore r0)
  end.

(** [bs.decode("utf-8", "ignore")], which never raises *)
Definition decode_ignore (bs : bytes) : str :=
  match decode true bs with
  | Ok s => s
  | Raise _ => []
  end.

End Utf8.

Module Url.

(** The characters [quote] never escapes: letters, digits and [_.-~]. *)
Definition always_safe (b : Z) : bool :=
  ((65 <=? b) && (b <=? 90)) || ((97 <=? b) && (b <=? 122))
  || ((48 <=? b) && (b <=? 57))
  || (b =? 95) || (b =? 46) || (b =? 45) || (b =? 126).

(** An upper-case hexadecimal digit. *)
Definition hex_digit (d : Z) : Z := if d <? 10 then 48 + d else 55 + d.

Definition quote_byte (b : Z) : str :=
  if always_safe b then [b]
  else if b =? 32 then [43]
  else [37; hex_digit (b / 16); hex_digit (b mod 16)].

(** [urllib.parse.quote_plus(s)] *)
Definition quote_plus (s : str) : result str :=
  (bs <- Utf8.encode s ;; Ok (flat_map quote_byte bs))%result.

(** [urllib.parse.urlencode(params)] for string keys and values *)
Fixpoint urlencode_pairs (params : list (str * str)) : result (list str) :=
  match params with
  | [] => Ok []
  | (k, v) :: rest =>
      (k' <- quote_plus k ;;
       v' <- quote_plus v ;;
       l <- urlencode_pairs rest ;;
       Ok ((k' ++ lit "=" ++ v') :: l))%result
  end.

Definition urlencode (params : list (str * str)) : result str :=
  (l <- urlencode_pairs params ;; Ok (join (lit "&") l))%result.

(** The value of a hexadecimal digit. *)
Definition hex_value (c : Z) : option Z :=
  if (48 <=? c) && (c <=? 57) then Some (c - 48)
  else if (65 <=? c) && (c <=? 70) then Some (c - 55)
  else if (97 <=? c) && (c <=? 102) then Some (c - 87)
  else None.

(** The octets a server reads back from a quoted value: [+] is a space,
    [%XX] is the octet [XX]. *)
Function unquote_plus_bytes (s : str) {struct s} : bytes :=
  match s with
  | [] => []
  | c :: s' =>
      if c =? 43 then 32 :: unquote_plus_bytes s'
      else if c =? 37 then
        match s' with
        | h :: l :: s'' =>
            match hex_value h, hex_value l with
            | Some x, Some y => (x * 16 + y) :: unquote_plus_bytes s''
            | _, _ => c :: unquote_plus_bytes s'
            end
        | _ => c :: unquote_plus_bytes s'
        end
      else c :: unquote_plus_bytes s'
  end.

(** The string a server reads back from a quoted value. *)
Definition unquote_plus (s : str) : result str :=
  Utf8.decode false (unquote_plus_bytes s).

(** An octet. *)
Definition is_byte (b : Z) : Prop := 0 <= b < 256.

End Url.

(* ------------------------------------------------------------------ *)
(** ** Effects *)

(** What a run does to the outside: a line on the console, a file
    written, a request sent. *)
Inductive event :=
| Printed (line : str)
| Wrote (path : str) (text : str)
| Sent (r : request).

(** The files (a later write shadows an earlier one) and everything the
    run has done so far, oldest first. *)
Record world := {
  files : list (str * str);
  trace : list event
}.

(** A computation with effects: it changes the world and returns or
    raises; what was done before an exception stays done. *)
Definition M (A : Type) : Type := world -> world * result A.

Definition ret {A} (a : A) : M A := fun w => (w, Ok a).

Definition raise {A} (e : exn) : M A := fun w => (w, Raise e).

(** A computation without effects. *)
Definition lift {A} (r : result A) : M A := fun w => (w, r).

Definition bind {A B} (m : M A) (k : A -> M B) : M B :=
  fun w =>
    match m w with
    | (w', Ok a) => k a w'
    | (w', Raise e) => (w', Raise e)
    end.

Declare Scope io_scope.
Delimit Scope io_scope with io.
Notation "x <- m ;; k" := (bind m (fun x => k))
  (at level 61, m at next level, right associativity) : io_scope.
Notation "' pat <- m ;; k" := (bind m (fun x => match x with pat => k end))
  (at level 61, pat pattern, m at next level, right associativity) : io_scope.
Notation "m ;;; k" := (bind m (fun _ => k))
  (at level 61, right associativity) : io_scope.

(** One more event in the trace. *)
Definition log (e : event) : M unit :=
  fun w => ({| files := files w; trace := trace w ++ [e] |}, Ok tt).

(** [print(line)] *)
Definition print (line : str) : M unit := log (Printed line).

(** [if cond: body] *)
Definition when (cond : bool) (body : M unit) : M unit :=
  if cond then body else ret tt.

(** The text of a file, if it exists. *)
Fixpoint find_file (path : str) (fs : list (str * str)) : option str :=
  match fs with
  | [] => None
  | (p, text) :: rest => if str_eqb path p then Some text else find_file path rest
  end.

(** [path.exists()] *)
Definition exists_ (path : str) : M bool :=
  fun w => (w, Ok match find_file path (files w) with
                  | Some _ => true
                  | None => false
                  end).

(** [path.read_text()] of an existing file *)
Definition read_text (path : str) : M str :=
  fun w => (w, match find_file path (files w) with
               | Some text => Ok text
               | None => Raise (FileNotFoundError path)
               end).

(** [path.write_text(text)] *)
Definition write_text (path : str) (text : str) : M unit :=
  fun w => ({| files := (path, text) :: files w;
               trace := trace w ++ [Wrote path text] |}, Ok tt).

(* ------------------------------------------------------------------ *)
(** ** The program *)

Section Program.
Context {P : Platform}.

Definition API_BASE : str := lit "https://dev.insights.ibm.com".

(** [TOKEN_PATH.format(tenant_uuid=t)] *)
Definition TOKEN_PATH (tenant_uuid : str) : str :=
  lit "/restapi/v1/tenants/" ++ tenant_uuid ++ lit "/token".

(** [STORAGE_SYSTEMS_PATH.format(tenant_uuid=t)] *)
Definition STORAGE_SYSTEMS_PATH (tenant_uuid : str) : str :=
  lit "/restapi/v1/tenants/" ++ tenant_uuid ++ lit "/storage-systems".

(** [s.lower()] *)
Definition lower (s : str) : str :=
  if is_ascii s then map ascii_lower s else lower_nonascii s.

(** One pass of the loop of [read_creds] over a line of the file. *)
Definition creds_line (st : option str * option str) (raw_line : str)
  : option str * option str :=
  let line := strip raw_line in
  match line with
  | [] => st
  | _ =>
      if startswith (lit "#") line then st
      else if negb (contains_char 58 line) then st
      else
        let '(key, value) := split_once 58 line in
        let key := lower (strip key) in
        let value := strip value in
        if str_eqb key (lit "apikey") then (Some value, snd st)
        else if str_eqb key (lit "tenantid") then (fst st, Some value)
        else st
  end.

Definition read_creds (path : str) : M (str * str) :=
  (present <- exists_ path ;;
   if negb present
   then raise (FileNotFoundError (lit "Credential file not found: " ++ path))
   else
     text <- read_text path ;;
     let '(api_key, tenant_id) :=
       fold_left creds_line (splitlines text) (None, None) in
     (* [if not api_key or not tenant_id]: [None] and [""] are falsy *)
     match api_key, tenant_id with
     | Some (k0 :: k), Some (t0 :: t) => ret (k0 :: k, t0 :: t)
     | _, _ =>
         raise (ValueError
                  (lit "Both 'apikey' and 'tenantid' must be present in creds file"))
     end)%io.

(** What [urlopen] does with the server's reply. *)
Inductive opened :=
| Opened (charset : option str) (body : bytes)
| HTTPError (code : Z) (body : bytes)
| URLError (reason : str).

(** [request.urlopen(req, timeout=timeout)]: a status outside 200..299
    raises [HTTPError]. *)
Definition urlopen (req : request) : M opened :=
  (log (Sent req) ;;;
   ret match server req with
       | Response status charset body =>
           if (200 <=? status) && (status <? 300)
           then Opened charset body
           else HTTPError status body
       | Unreachable reason => URLError reason
       end)%io.

(** [body.decode(charset)] *)
Definition bytes_decode (charset : str) (body : bytes) : result str :=
  if str_eqb charset (lit "utf-8") then Utf8.decode false body
  else decode_other charset body.

(** The body sent: a string is encoded as UTF-8, bytes are sent as they
    are. *)
Definition encode_body (data : option (str + bytes)) : result (option bytes) :=
  match data with
  | Some (inl s) => (b <- Utf8.encode s ;; Ok (Some b))%result
  | Some (inr b) => Ok (Some b)
  | None => Ok None
  end.

(** The [Request] object, with the [Accept] header first. *)
Definition make_request (url method : str) (headers : list (str * value))
    (body : option bytes) (timeout : Z) : request :=
  {| req_url := url; req_method := method;
     req_headers := (lit "Accept", VStr (lit "application/json")) :: headers;
     req_body := body; req_timeout := timeout |}.

Definition request_json (url : str) (method : str) (headers : list (str * value))
    (data : option (str + bytes)) (timeout : Z) : M value :=
  (body <- lift (encode_body data) ;;
   resp <- urlopen (make_request url method headers body timeout) ;;
   match resp with
   | Opened charset body =>
       let charset := match charset with
                      | Some (c :: cs) => c :: cs
                      | _ => lit "utf-8"
                      end in
       payload <- lift (bytes_decode charset body) ;;
       (* only [json.JSONDecodeError] is handled *)
       match json_loads payload with
       | Decoded v => ret v
       | JSONDecodeError exc =>
           raise (RuntimeError (lit "Invalid JSON response from " ++ url ++ lit ": " ++ exc))
       | LoadError e => raise (Builtin e)
       end
   | HTTPError code body =>
       let details := Utf8.decode_ignore body in
       raise (RuntimeError (lit "HTTP " ++ str_of_int code ++ lit " for " ++ url
                            ++ lit ": " ++ details))
   | URLError reason =>
       raise (RuntimeError (lit "Failed to reach " ++ url ++ lit ": " ++ reason))
   end)%io.

Definition is_digit (c : Z) : bool := (48 <=? c) && (c <=? 57).

(** The digit zero of every run of ten decimal digits of Unicode 14.0, the
    table behind [Py_UNICODE_TODECIMAL]; the ASCII digits come first. *)
Definition decimal_zeros : list Z :=
  [48; 1632; 1776; 1984; 2406; 2534; 2662; 2790; 2918; 3046; 3174; 3302; 3430;
   3558; 3664; 3792; 3872; 4160; 4240; 6112; 6160; 6470; 6608; 6784; 6800; 6992;
   7088; 7232; 7248; 42528; 43216; 43264; 43472; 43504; 43600; 44016; 65296;
   66720; 68912; 69734; 69872; 69942; 70096; 70384; 70736; 70864; 71248; 71360;
   71472; 71904; 72016; 72784; 73040; 73120; 92768; 92864; 93008; 120782;
   120792; 120802; 120812; 120822; 123200; 123632; 125264; 130032].

(** The value of a decimal digit of any script. *)
Definition decimal_value (c : Z) : option Z :=
  match find (fun zero => (zero <=? c) && (c <=? zero + 9)) decimal_zeros with
  | Some zero => Some (c - zero)
  | None => None
  end.

(** The digits of an int literal: single underscores may separate them.
    [acc] is the value and [count] the number of the digits read so far. *)
Fixpoint parse_digits (acc count : Z) (after_digit : bool) (s : str)
  : option (Z * Z) :=
  match s with
  | [] => if after_digit then Some (acc, count) else None
  | c :: s' =>
      match decimal_value c with
      | Some d => parse_digits (acc * 10 + d) (count + 1) true s'
      | None =>
          if (c =? 95) && after_digit then parse_digits acc count false s'
          else None
      end
  end.

(** The white space [int] skips around an ASCII literal. *)
Definition is_c_space (c : Z) : bool := ((9 <=? c) && (c <=? 13)) || (c =? 32).

(** The white space [int] skips: in a string that is not ASCII, it first
    turns every Unicode white-space character above U+007E into a space (and
    every decimal digit into its ASCII digit). *)
Definition int_space (c : Z) : bool := is_c_space c || ((128 <=? c) && isspace c).

(** The bound of the interpreter on the digits of a decimal literal
    ([sys.int_info.default_max_str_digits]). *)
Definition max_str_digits : Z := 4300.

(** [int(s)] for a string: white space around an optional sign and the
    digits; a literal of more than [max_str_digits] digits is refused. *)
Definition int_of_str (s : str) : result Z :=
  let parsed :=
    match strip_by int_space s with
    | c :: ds =>
        if c =? 43 then parse_digits 0 0 false ds
        else if c =? 45
        then option_map (fun '(n, count) => (- n, count)) (parse_digits 0 0 false ds)
        else parse_digits 0 0 false (c :: ds)
    | [] => None
    end in
  match parsed with
  | Some (n, count) =>
      if count <=? max_str_digits then Ok n else Raise (Builtin ValueError_)
  | None => Raise (Builtin ValueError_)
  end.

(** [int(x)] for a float: the integer part. *)
Definition int_of_float (f : spec_float) : result Z :=
  match f with
  | S754_zero _ => Ok 0
  | S754_nan => Raise (Builtin ValueError_)
  | S754_infinity _ => Raise (Builtin OverflowError)
  | S754_finite s m e =>
      Ok (cond_Zopp s (if 0 <=? e then Zpos m * 2 ^ e else Zpos m / 2 ^ (- e)))
  end.

(** [int(v)] *)
Definition py_int (v : value) : result Z :=
  match v with
  | VInt n => Ok n
  | VBool b => Ok (if b then 1 else 0)
  | VFloat f => int_of_float f
  | VStr s => int_of_str s
  | _ => Raise (Builtin TypeError)
  end.

(** [except (KeyError, TypeError, ValueError)]: the exceptions the handler
    of [obtain_token] catches; the Unicode errors are [ValueError]s. *)
Definition caught (e : exn) : bool :=
  match e with
  | ValueError _ => true
  | Builtin KeyError | Builtin TypeError | Builtin ValueError_
  | Builtin UnicodeDecodeError | Builtin UnicodeEncodeError => true
  | _ => false
  end.

(** The [try] block of [obtain_token] with its handler: a caught
    exception becomes a [RuntimeError]; anything else passes through. *)
Definition token_of_response (response : value) : result (value * Z) :=
  match (result <- subscript response (lit "result") ;;
         token <- subscript result (lit "token") ;;
         e <- subscript result (lit "expiration") ;;
         expiration <- py_int e ;;
         Ok (token, expiration))%result with
  | Ok r => Ok r
  | Raise e =>
      if caught e
      then Raise (RuntimeError (lit "Unexpected token response structure: "
                                ++ py_str response))
      else Raise e
  end.

Definition obtain_token (api_key tenant_uuid : str) : M (value * Z) :=
  (let url := API_BASE ++ TOKEN_PATH tenant_uuid in
   response <- request_json url (lit "POST")
                 [(lit "x-api-key", VStr api_key);
                  (lit "Content-Type", VStr (lit "application/json"))]
                 (Some (inl (lit "{}"))) 30 ;;
   lift (token_of_response response))%io.

(** The URL of the listing. *)
Definition storage_systems_url (tenant_uuid : str) (storage_type : option str)
  : result str :=
  (let params :=
     match storage_type with
     | Some (c :: s) => [(lit "storage-type", c :: s)]
     | _ => []
     end in
   query <- match params with
            | [] => Ok []
            | _ => (q <- Url.urlencode params ;; Ok (lit "?" ++ q))
            end ;;
   Ok (API_BASE ++ STORAGE_SYSTEMS_PATH tenant_uuid ++ query))%result.

Definition fetch_storage_systems (tenant_uuid : str) (token : value)
    (storage_type : option str) : M value :=
  (url <- lift (storage_systems_url tenant_uuid storage_type) ;;
   request_json url (lit "GET") [(lit "x-api-token", token)] None 30)%io.

(** The parsed command line. *)
Record Namespace := {
  creds : str;
  storage_type : str;
  json_out : option str;
  table : bool;
  table_out : option str;
  token_out : option str;
  limit : option Z;
  quiet : bool
}.

(** [len(v)] *)
Definition py_len (v : value) : result Z :=
  match v with
  | VStr s => Ok (len s)
  | VList xs => Ok (len xs)
  | VDict items => Ok (len items)
  | _ => Raise (Builtin TypeError)
  end.

(** The items a [for] loop takes from a value. *)
Definition iterate (v : value) : result (list value) :=
  match v with
  | VList xs => Ok xs
  | VStr s => Ok (map (fun c => VStr [c]) s)
  | VDict items => Ok (map (fun kv => VStr (fst kv)) items)
  | _ => Raise (Builtin TypeError)
  end.

(** [token + "\n"] *)
Definition add_newline (token : value) : result str :=
  match token with
  | VStr s => Ok (s ++ [10])
  | _ => Raise (Builtin TypeError)
  end.

(** The block [if args.token_out:] of [main]. *)
Definition write_token (args : Namespace) (token : value) : M unit :=
  match token_out args with
  | Some path =>
      (text <- lift (add_newline token) ;;
       write_text path text ;;;
       when (negb (quiet args)) (print (lit "Wrote token to " ++ path)))%io
  | None => ret tt
  end.

(** The block [if not args.quiet:] of [main] that reports the listing. *)
Definition report_listing (args : Namespace) (payload systems : value)
    (storage_type : option str) : M unit :=
  if quiet args then ret tt
  else
    (reported <- lift (get payload (lit "storageType") VNone) ;;
     let summary_type :=
       if truthy reported then py_str reported
       else match storage_type with
            | Some s => s
            | None => lit "all"
            end in
     n <- lift (py_len systems) ;;
     print (lit "Retrieved " ++ str_of_int n ++ lit " storage systems (storageType="
            ++ summary_type ++ lit ")"))%io.

(** The block [if args.json_out:] of [main]. *)
Definition write_json (args : Namespace) (payload : value) : M unit :=
  match json_out args with
  | Some path =>
      (write_text path (json_dumps payload ++ [10]) ;;;
       when (negb (quiet args)) (print (lit "Wrote JSON payload to " ++ path)))%io
  | None => ret tt
  end.

(** The block [if args.table or args.table_out:] of [main]. *)
Definition write_table (args : Namespace) (systems : value) : M unit :=
  if table args || match table_out args with
                   | Some _ => true
                   | None => false
                   end
  then
    (items <- lift (iterate systems) ;;
     table_text <- lift (build_table items (limit args)) ;;
     when (table args) (print table_text) ;;;
     match table_out args with
     | Some path =>
         write_text path (table_text ++ [10]) ;;;
         when (negb (quiet args)) (print (lit "Wrote table to " ++ path))
     | None => ret tt
     end)%io
  else ret tt.

Definition main (args : Namespace) : M Z :=
  ('(api_key, tenant_uuid) <- read_creds (creds args) ;;
   when (negb (quiet args)) (print (lit "Using tenant: " ++ tenant_uuid)) ;;;
   '(token, expiration_ms) <- obtain_token api_key tenant_uuid ;;
   write_token args token ;;;
   when (negb (quiet args))
     (print (lit "Token expiration (UTC): " ++ _format_ts (VInt expiration_ms))) ;;;
   let storage_type := match storage_type args with
                       | [] => None
                       | s => Some s
                       end in
   payload <- fetch_storage_systems tenant_uuid token storage_type ;;
   systems <- lift (get payload (lit "data") (VList [])) ;;
   report_listing args payload systems storage_type ;;;
   write_json args payload ;;;
   write_table args systems ;;;
   ret 0)%io.

End Program.

(* ------------------------------------------------------------------ *)
(** ** Notions used by the statements *)

(** A field of a JSON object; nothing else has fields. *)
Definition field (k : str) (v : value) : option value :=
  match v with
  | VDict items => lookup k items
  | _ => None
  end.

(** The em dash, U+2014: the placeholder glyph of the specification. *)
Definition em_dash : Z := 8212.

(** Windows-1252: the characters of the octets 0x80 to 0x9F, five of which
    have none; every other octet is its own code point. *)
Definition cp1252_high : list (option Z) :=
  [Some 8364; None; Some 8218; Some 402; Some 8222; Some 8230; Some 8224;
   Some 8225; Some 710; Some 8240; Some 352; Some 8249; Some 338; None;
   Some 381; None; None; Some 8216; Some 8217; Some 8220; Some 8221; Some 8226;
   Some 8211; Some 8212; Some 732; Some 8482; Some 353; Some 8250; Some 339;
   None; Some 382; Some 376].

Definition cp1252 (b : Z) : option Z :=
  if (128 <=? b) && (b <? 160) then nth (Z.to_nat (b - 128)) cp1252_high None
  else Some b.

(** A text whose UTF-8 octets are read as Windows-1252. *)
Definition misread (s : str) : list (option Z) :=
  match Utf8.encode s with
  | Ok octets => map cp1252 octets
  | Raise _ => []
  end.


(** The lines of a text: what stands between its line feeds. *)
Fixpoint text_lines (s : str) : list str :=
  match s with
  | [] => [[]]
  | c :: s' =>
      if c =? 10 then [] :: text_lines s'
      else match text_lines s' with
           | line :: rest => (c :: line) :: rest
           | [] => [[c]]
           end
  end.

(** The separator of the lines of the table. *)
Definition newline : str := [10].

(** [YYYY-MM-DDTHH:MM:SS], an optional fraction of six digits, and the
    offset of UTC. *)
Definition iso8601_utc (s : str) : bool :=
  match s with
  | y1 :: y2 :: y3 :: y4 :: 45 :: m1 :: m2 :: 45 :: d1 :: d2 :: 84
    :: h1 :: h2 :: 58 :: n1 :: n2 :: 58 :: s1 :: s2 :: rest =>
      forallb is_digit [y1; y2; y3; y4; m1; m2; d1; d2; h1; h2; n1; n2; s1; s2]
      && match rest with
         | 46 :: f1 :: f2 :: f3 :: f4 :: f5 :: f6 :: tz =>
             forallb is_digit [f1; f2; f3; f4; f5; f6] && str_eqb tz (lit "+00:00")
         | tz => str_eqb tz (lit "+00:00")
         end
  | _ => false
  end.

(** A platform for closed examples: the server answers every request with
    [answer], and every body decodes to the JSON value [decoded]. *)
Definition example_platform (answer : reply) (decoded : value) : Platform :=
  {| repr_value := fun _ => lit "?";
     json_loads := fun _ => Decoded decoded;
     json_dumps := fun _ => lit "{}";
     lower_nonascii := fun s => s;
     decode_other := fun _ _ => Raise (Builtin LookupError);
     server := fun _ => answer |}.

Section RenderingNotions.
Context {P : Platform}.

(** The row the loop of [build_table] builds from a record. *)
Definition row_of (record : list (str * value)) : row :=
  let at_ k default := match lookup k record with
                       | Some v => v
                       | None => default
                       end in
  (py_str (at_ (lit "name") (VStr [])),
   _format_ts (at_ (lit "last_successful_probe") VNone),
   _format_ts (at_ (lit "last_successful_monitor") VNone),
   py_str (at_ (lit "condition") (VStr []))).

(** The widest of the header and the cells of column [i]. *)
Definition widest (i : nat) (rows : list row) : Z :=
  fold_right Z.max (len (nth i (cells headers) []))
             (map (fun r => len (nth i (cells r) [])) rows).

(** The sum of the widths. *)
Definition total (l : list Z) : Z := fold_right Z.add 0 l.

End RenderingNotions.

Section Notions.
Context {P : Platform}.

(** The payload of the end-to-end scenario: one system with a name and a
    condition, no timestamps. *)
Definition scenario_payload : value :=
  VDict [(lit "storageType", VStr (lit "block"));
         (lit "data", VList [VDict [(lit "name", VStr (lit "sys1"));
                                    (lit "condition", VStr (lit "Normal"))]])].

(** What [main] renders from a payload. *)
Definition render (payload : value) (limit : option Z) : result str :=
  (systems <- get payload (lit "data") (VList []) ;;
   items <- iterate systems ;;
   build_table items limit)%result.

(** The request [obtain_token] makes. *)
Definition token_call (api_key tenant_uuid : str) : M value :=
  request_json (API_BASE ++ TOKEN_PATH tenant_uuid) (lit "POST")
    [(lit "x-api-key", VStr api_key);
     (lit "Content-Type", VStr (lit "application/json"))]
    (Some (inl (lit "{}"))) 30.

(** One of [result], [token] and [expiration] is missing. *)
Definition fields_missing (response : value) : Prop :=
  field (lit "result") response = None
  \/ exists r, field (lit "result") response = Some r
               /\ (field (lit "token") r = None \/ field (lit "expiration") r = None).

(** The error of [obtain_token] for a response it cannot use. *)
Definition malformed_response (response : value) : exn :=
  RuntimeError (lit "Unexpected token response structure: " ++ py_str response).

(** The world after one more event. *)
Definition after (w : world) (e : event) : world :=
  {| files := files w; trace := trace w ++ [e] |}.

(** The white space that may surround an integer literal: the Unicode
    white-space characters but the four separators U+001C to U+001F. *)
Definition literal_spaces : list Z :=
  [9; 10; 11; 12; 13; 32; 133; 160; 5760; 8192; 8193; 8194; 8195; 8196; 8197;
   8198; 8199; 8200; 8201; 8202; 8232; 8233; 8239; 8287; 12288].

(** A decimal digit, of any script. *)
Definition decimal_digit (c : Z) : Prop := exists d, decimal_value c = Some d.

(** The value of a decimal digit. *)
Definition digit_of (c : Z) : Z :=
  match decimal_value c with
  | Some d => d
  | None => 0
  end.

(** The number that decimal digits write. *)
Definition number_of (digits : str) : Z :=
  fold_left (fun n c => n * 10 + digit_of c) digits 0.

(** The sign of a literal. *)
Inductive sign := NoSign | Plus | Minus.

Definition sign_text (sg : sign) : str :=
  match sg with
  | NoSign => []
  | Plus => lit "+"
  | Minus => lit "-"
  end.

Definition signed (sg : sign) (n : Z) : Z :=
  match sg with
  | Minus => - n
  | _ => n
  end.

(** The text of an integer literal: white space, a sign, groups of digits
    joined by underscores, white space. *)
Definition literal (before : str) (sg : sign) (groups : list str) (after_ : str) : str :=
  before ++ sign_text sg ++ join (lit "_") groups ++ after_.

(** [s] is an integer literal that writes [n]: at least one group, no
    empty group, at most 4300 digits in all. *)
Definition int_literal (s : str) (n : Z) : Prop :=
  exists before sg groups after_,
    s = literal before sg groups after_
    /\ Forall (fun c => In c literal_spaces) before
    /\ Forall (fun c => In c literal_spaces) after_
    /\ groups <> []
    /\ Forall (fun g => g <> [] /\ Forall decimal_digit g) groups
    /\ len (List.concat groups) <= 4300
    /\ n = signed sg (number_of (List.concat groups)).

(** The number 1.5 as a binary64 value. *)
Definition one_and_a_half : spec_float := S754_finite false 6755399441055744 (-52).

(** A token response whose expiration is 1.5. *)
Definition fractional_response : value :=
  VDict [(lit "result",
          VDict [(lit "token", VStr (lit "T"));
                 (lit "expiration", VFloat one_and_a_half)])].

(** No file, nothing done yet. *)
Definition empty_world : world := {| files := []; trace := [] |}.

(** The request of the token exchange. *)
Definition token_request (api_key tenant_uuid : str) : request :=
  make_request (API_BASE ++ TOKEN_PATH tenant_uuid) (lit "POST")
    [(lit "x-api-key", VStr api_key);
     (lit "Content-Type", VStr (lit "application/json"))]
    (Some (lit "{}")) 30.

(** The line [main] prints before the token exchange, unless quiet. *)
Definition tenant_line (args : Namespace) (tenant_uuid : str) : list event :=
  if quiet args then [] else [Printed (lit "Using tenant: " ++ tenant_uuid)].

(** The line [main] prints after the token is saved, unless quiet. *)
Definition expiration_line (args : Namespace) (expiration_ms : Z) : list event :=
  if quiet args then []
  else [Printed (lit "Token expiration (UTC): " ++ _format_ts (VInt expiration_ms))].

(** The storage type [main] passes to [fetch_storage_systems]. *)
Definition storage_type_of (args : Namespace) : option str :=
  match storage_type args with
  | [] => None
  | s => Some s
  end.

(** The world with more events in its trace. *)
Definition extended (w : world) (events : list event) : world :=
  {| files := files w; trace := trace w ++ events |}.

(** Nothing but requests. *)
Definition only_requests (events : list event) : Prop :=
  Forall (fun ev => exists r, ev = Sent r) events.

(** The entry on a line of a credentials file: a key and a value around
    the first colon; a blank line, a comment and a line without a colon
    hold none. *)
Definition entry_of_line (raw_line : str) : option (str * str) :=
  let line := strip raw_line in
  match line with
  | [] => None
  | _ =>
      if startswith (lit "#") line || negb (contains_char 58 line) then None
      else let '(key, value) := split_once 58 line in
           Some (lower (strip key), strip value)
  end.

(** The entries of a credentials file, in the order of its lines. *)
Definition entries (text : str) : list (str * str) :=
  flat_map (fun raw_line => match entry_of_line raw_line with
                            | Some e => [e]
                            | None => []
                            end) (splitlines text).

(** The value of the last entry with the key [key]. *)
Fixpoint last_value (key : str) (es : list (str * str)) : option str :=
  match es with
  | [] => None
  | (k, v) :: rest =>
      match last_value key rest with
      | Some x => Some x
      | None => if str_eqb k key then Some v else None
      end
  end.

(** The value a credentials file gives to [key]. *)
Definition entry (key : str) (text : str) : option str :=
  last_value key (entries text).

(** The error of [read_creds] for a file without its two values. *)
Definition creds_error : exn :=
  ValueError (lit "Both 'apikey' and 'tenantid' must be present in creds file").

(** The first of two optional values that is there. *)
Definition or_else (a b : option str) : option str :=
  match a with
  | Some x => Some x
  | None => b
  end.

(** A value as a credentials file can hold it: not empty, on one line,
    no white space at either end. *)
Definition clean (s : str) : Prop :=
  s <> [] /\ Forall (fun c => is_linebreak c = false) s
  /\ isspace (hd 0 s) = false /\ isspace (last s 0) = false.

(** A credentials file with the two entries. *)
Definition creds_file (api_key tenant_id : str) : str :=
  lit "apikey:" ++ api_key ++ [10] ++ lit "tenantid:" ++ tenant_id ++ [10].

End Notions.

(** A platform whose server cannot be reached. *)
Definition offline : Platform := example_platform (Unreachable (lit "down")) VNone.

(** A platform whose server answers 200 and whose bodies decode to
    [decoded]. *)
Definition answering (decoded : value) : Platform :=
  example_platform (Response 200 None (lit "{}")) decoded.


(** A token response of the expected shape. *)
Definition token_response : value :=
  VDict [(lit "result",
          VDict [(lit "token", VStr (lit "T"));
                 (lit "expiration", VInt 1700000000000)])].

(** A world with a credentials file. *)
Definition creds_world : world :=
  {| files := [(lit "creds", creds_file (lit "abc") (lit "t-1"))]; trace := [] |}.

(** A command line that asks for every output. *)
Definition every_output : Namespace :=
  {| creds := lit "creds"; storage_type := lit "block";
     json_out := Some (lit "systems.json"); table := true;
     table_out := Some (lit "systems.txt"); token_out := Some (lit "token");
     limit := None; quiet := false |}.

(* ------------------------------------------------------------------ *)
(** ** Further notions *)

(** A record of the listing is a JSON object. *)
Definition is_record (v : value) : bool :=
  match v with
  | VDict _ => true
  | _ => false
  end.

(** The table without a body row. *)
Definition empty_table : str :=
  lit "Name | Last Successful Probe (UTC) | Last Successful Monitor (UTC) | Condition"
  ++ newline
  ++ lit "-----+-----------------------------+-------------------------------+----------".

(** The four fields a row is made of. *)
Definition row_fields : list str :=
  [lit "name"; lit "last_successful_probe"; lit "last_successful_monitor";
   lit "condition"].

(** The charsets for which [request_json] decodes a body as UTF-8: none
    given, an empty one, or [utf-8] itself. *)
Definition utf8_charset (charset : option str) : Prop :=
  charset = None \/ charset = Some [] \/ charset = Some (lit "utf-8").

(** The characters that a quoted query value is made of. *)
Definition quoted_char (c : Z) : Prop :=
  Url.always_safe c = true \/ c = 43 \/ c = 37.

(** The characters that would end or split a query value: space, [#],
    [&], [/], [=], [?]. *)
Definition query_delimiters : list Z := [32; 35; 38; 47; 61; 63].

Section RunNotions2.
Context {P : Platform}.

(** The files written by a sequence of events, the latest first. *)
Fixpoint written (events : list event) : list (str * str) :=
  match events with
  | [] => []
  | Wrote path text :: rest => written rest ++ [(path, text)]
  | _ :: rest => written rest
  end.

(** The number of requests in a sequence of events. *)
Fixpoint requests (events : list event) : nat :=
  match events with
  | [] => O
  | Sent _ :: rest => S (requests rest)
  | _ :: rest => requests rest
  end.

(** A computation that, from any world, does events that all have the
    property [q], at most [n] requests among them, and nothing else: the
    events are added to the trace and the files they write are added to
    the files. *)
Definition does (q : event -> Prop) (n : nat) {A} (m : M A) : Prop :=
  forall w, exists events,
    trace (fst (m w)) = trace w ++ events
    /\ files (fst (m w)) = written events ++ files w
    /\ Forall q events
    /\ (requests events <= n)%nat.

(** A computation that returns nothing but values with the property
    [R]. *)
Definition returns {A} (R : A -> Prop) (m : M A) : Prop :=
  forall w w' a, m w = (w', Ok a) -> R a.

(** What [main] may do with the command line [args]: print unless it is
    quiet and no table is asked for, write the files of its three output
    options, and send requests below the base of the API with the [Accept]
    header first. *)
Definition allowed (args : Namespace) (ev : event) : Prop :=
  match ev with
  | Printed _ => quiet args = false \/ table args = true
  | Wrote path _ =>
      token_out args = Some path \/ json_out args = Some path
      \/ table_out args = Some path
  | Sent r =>
      startswith API_BASE (req_url r) = true
      /\ hd_error (req_headers r) = Some (lit "Accept", VStr (lit "application/json"))
  end.

End RunNotions2.

(** White space that does not end a line. *)
Definition blank (p : str) : Prop :=
  Forall (fun c => isspace c = true /\ is_linebreak c = false) p.

(** [key] is [name] but for the case of its ASCII letters. *)
Definition spelling (name key : str) : Prop :=
  is_ascii key = true /\ map ascii_lower key = name.

(** A line of a credentials file, with white space around the key and
    the value. *)
Definition padded_line (p1 key p2 p3 value p4 : str) : str :=
  p1 ++ key ++ p2 ++ 58 :: p3 ++ value ++ p4.

(** A line that [read_creds] skips: blank, a comment, or without a
    colon. *)
Definition skipped (line : str) : Prop :=
  strip line = [] \/ startswith (lit "#") (strip line) = true
  \/ contains_char 58 (strip line) = false.

(** A text that is empty or ends with a line feed. *)
Definition whole_lines (text : str) : Prop :=
  text = [] \/ last text 0 = 10.

(** A line of a credentials file as it is written: a setting, that is a
    key, a colon and a value with white space around each; a comment, that
    is white space, [#] and any text; or a line without a colon, as a blank
    line is. *)
Inductive cred_line :=
| Setting (p1 key p2 p3 value p4 : str)
| Comment (p1 text : str)
| Plain (text : str).

Definition line_text (l : cred_line) : str :=
  match l with
  | Setting p1 key p2 p3 value p4 => padded_line p1 key p2 p3 value p4
  | Comment p1 text => p1 ++ 35 :: text
  | Plain text => text
  end.

(** The text of a file: every line ends with a line feed. *)
Definition file_text (lines : list cred_line) : str :=
  flat_map (fun l => line_text l ++ [10]) lines.

(** A key: ASCII, not empty, on one line, without a colon, without white
    space at either end, and not starting with [#]. *)
Definition key_name (key : str) : Prop :=
  key <> [] /\ is_ascii key = true /\ contains_char 58 key = false
  /\ Forall (fun c => is_linebreak c = false) key
  /\ isspace (hd 0 key) = false /\ isspace (last key 0) = false
  /\ hd 0 key <> 35.

(** A line of a well-formed file: the value of a setting is empty or
    [clean]; nothing holds a line break. *)
Definition well_formed_line (l : cred_line) : Prop :=
  match l with
  | Setting p1 key p2 p3 value p4 =>
      blank p1 /\ blank p2 /\ blank p3 /\ blank p4
      /\ key_name key /\ (value = [] \/ clean value)
  | Comment p1 text => blank p1 /\ Forall (fun c => is_linebreak c = false) text
  | Plain text => contains_char 58 text = false
                  /\ Forall (fun c => is_linebreak c = false) text
  end.

(** The value a file stores for [name]: the value of the last setting
    whose key is [name], whatever the case of its letters. *)
Fixpoint stored (name : str) (lines : list cred_line) : option str :=
  match lines with
  | [] => None
  | l :: rest =>
      match stored name rest with
      | Some v => Some v
      | None =>
          match l with
          | Setting _ key _ _ value _ =>
              if str_eqb (map ascii_lower key) name then Some value else None
          | _ => None
          end
      end
  end.

(** The entry of a line as it is written. *)
Definition written_entry (l : cred_line) : list (str * str) :=
  match l with
  | Setting _ key _ _ value _ => [(map ascii_lower key, value)]
  | _ => []
  end.

(** A credentials file with a comment, an old API key, a blank line, a
    tenant id, the API key again and another setting. *)
Definition sample_lines : list cred_line :=
  [Comment [] (lit " credentials");
   Setting [] (lit "apikey") [] [] (lit "old") [];
   Plain [];
   Setting (lit "  ") (lit "TenantId") (lit " ") (lit " ") (lit "t-1") [];
   Setting [] (lit "ApiKey") [] (lit " ") (lit "a:b c") (lit "  ");
   Setting [] (lit "region") [] [] [] []].

(** A world whose credentials file is made of these lines. *)
Definition sample_world : world :=
  {| files := [(lit "creds", file_text sample_lines)]; trace := [] |}.

(** A platform whose server answers the token exchange with
    [token_answer] and the fetch of the listing with [listing]. *)
Definition two_answers (token_answer listing : value) : Platform :=
  {| repr_value := fun _ => lit "?";
     json_loads := fun s => if str_eqb s (lit "token") then Decoded token_answer
                            else Decoded listing;
     json_dumps := fun _ => lit "{}";
     lower_nonascii := fun s => s;
     decode_other := fun _ _ => Raise (Builtin LookupError);
     server := fun r => if str_eqb (req_method r) (lit "POST")
                        then Response 200 None (lit "token")
                        else Response 200 None (lit "listing") |}.

(** A platform whose server answers 200 with a body that is not UTF-8. *)
Definition garbled : Platform := example_platform (Response 200 None [255]) VNone.

(** A token response whose token is a number. *)
Definition numeric_token_response : value :=
  VDict [(lit "result",
          VDict [(lit "token", VInt 5); (lit "expiration", VInt 1700000000000)])].

(** A token response whose expiration is infinite. *)
Definition endless_response : value :=
  VDict [(lit "result",
          VDict [(lit "token", VStr (lit "T"));
                 (lit "expiration", VFloat (S754_infinity false))])].

(** A listing with one system. *)
Definition one_system : value :=
  VDict [(lit "data", VList [VDict [(lit "name", VStr (lit "sys1"))]])].

(** A quiet command line without any output. *)
Definition silent : Namespace :=
  {| creds := lit "creds"; storage_type := lit "block";
     json_out := None; table := false; table_out := None; token_out := None;
     limit := None; quiet := true |}.

(** A world with a credentials file, another file and a line already
    printed. *)
Definition busy_world : world :=
  {| files := [(lit "creds", creds_file (lit "abc") (lit "t-1"));
               (lit "notes", lit "keep")];
     trace := [Printed (lit "before")] |}.

(** A string that is one lone surrogate. *)
Definition lone_surrogate : str := [55296].

(* ================================================================== *)
(** * Properties *)

(** ** Timestamps *)

Section TimestampFacts.
Context {P : Platform}.

Lemma format_ts_falsy (ms : value) :
  truthy ms = false -> _format_ts ms = placeholder.
Proof.
  intros H. unfold _format_ts. now rewrite H.
Qed.

(** C9: the timestamp 1700000000000 ms is formatted as
    2023-11-14T22:13:20+00:00, an ISO-8601 string in UTC that begins with
    2023-11-14T22:13:20. For the timestamp 0 and for an absent one the code
    returns the three characters U+00E2 U+20AC U+201D, not the placeholder
    glyph, the em dash: they are the UTF-8 octets of the em dash read as
    Windows-1252. *)
Theorem format_ts_examples :
  _format_ts (VInt 1700000000000) = lit "2023-11-14T22:13:20+00:00"
  /\ iso8601_utc (_format_ts (VInt 1700000000000)) = true
  /\ startswith (lit "2023-11-14T22:13:20") (_format_ts (VInt 1700000000000)) = true
  /\ _format_ts (VInt 0) = [226; 8364; 8221]
  /\ _format_ts VNone = [226; 8364; 8221]
  /\ _format_ts (VInt 0) <> [em_dash]
  /\ _format_ts VNone <> [em_dash]
  /\ misread [em_dash] = [Some 226; Some 8364; Some 8221].
Proof.
  assert (E : _format_ts (VInt 1700000000000) = lit "2023-11-14T22:13:20+00:00")
    by (vm_compute; reflexivity).
  rewrite E. repeat split; try discriminate; vm_compute; reflexivity.
Qed.

End TimestampFacts.

(** ** The table *)

Lemma len_app {A} (a b : list A) : len (a ++ b) = len a + len b.
Proof. unfold len. rewrite length_app. lia. Qed.

Lemma last_app_cons {A} (a : list A) (x : A) (b : list A) (d : A) :
  last (a ++ x :: b) d = last (x :: b) d.
Proof.
  induction a as [|y a IH]; [reflexivity|].
  cbn [app]. rewrite <- IH. destruct a; reflexivity.
Qed.

Lemma len_nonneg {A} (a : list A) : 0 <= len a.
Proof. unfold len. lia. Qed.

Lemma len_repeat_char (c n : Z) : len (repeat_char c n) = Z.max 0 n.
Proof. unfold len, repeat_char. rewrite repeat_length. lia. Qed.

Lemma len_format_field (w : Z) (s : str) :
  len (format_field w s) = Z.max w (len s).
Proof.
  unfold format_field. rewrite len_app, len_repeat_char.
  pose proof (len_nonneg s). lia.
Qed.

Lemma fold_left_max {A} (f : A -> Z) (l : list A) (a : Z) :
  fold_left (fun acc x => Z.max acc (f x)) l a = fold_right Z.max a (map f l).
Proof.
  revert a. induction l as [|x l IH]; intros a; simpl; [reflexivity|].
  rewrite IH. clear IH. induction l as [|y l IH]; simpl; lia.
Qed.

Lemma fold_right_max_ge_init (a : Z) (l : list Z) : a <= fold_right Z.max a l.
Proof. induction l; simpl; lia. Qed.

Lemma fold_right_max_ge_elem (a x : Z) (l : list Z) :
  In x l -> x <= fold_right Z.max a l.
Proof.
  induction l as [|y l IH]; simpl; [tauto|].
  intros [->|H]; [lia|]. specialize (IH H). lia.
Qed.

Section TableFacts.
Context {P : Platform}.

Lemma collect_rows_records (limit : option Z) (records : list (list (str * value))) :
  forall idx,
    collect_rows limit idx (map VDict records)
    = Ok (map row_of
            match limit with
            | Some k => firstn (Z.to_nat (k - idx)) records
            | None => records
            end).
Proof.
  induction records as [|d records IH]; intros idx.
  - simpl. destruct limit; [rewrite firstn_nil|]; reflexivity.
  - cbn [map collect_rows]. destruct limit as [k|].
    + destruct (Z.leb_spec k idx) as [Hle|Hlt].
      * replace (Z.to_nat (k - idx)) with O by lia. reflexivity.
      * replace (Z.to_nat (k - idx)) with (S (Z.to_nat (k - (idx + 1)))) by lia.
        cbn [get rbind firstn map]. rewrite IH. reflexivity.
    + cbn [get rbind map]. rewrite IH. reflexivity.
Qed.

Lemma widen_cells (a b c d : Z) (r : row) :
  widen [a; b; c; d] r
  = [Z.max a (len (nth 0 (cells r) [])); Z.max b (len (nth 1 (cells r) []));
     Z.max c (len (nth 2 (cells r) [])); Z.max d (len (nth 3 (cells r) []))].
Proof. destruct r as [[[c0 c1] c2] c3]. reflexivity. Qed.

Lemma fold_widen (rows : list row) :
  forall a b c d,
    fold_left widen rows [a; b; c; d]
    = [fold_left (fun acc r => Z.max acc (len (nth 0 (cells r) []))) rows a;
       fold_left (fun acc r => Z.max acc (len (nth 1 (cells r) []))) rows b;
       fold_left (fun acc r => Z.max acc (len (nth 2 (cells r) []))) rows c;
       fold_left (fun acc r => Z.max acc (len (nth 3 (cells r) []))) rows d].
Proof.
  induction rows as [|r rows IH]; intros a b c d; [reflexivity|].
  cbn [fold_left]. rewrite widen_cells. apply IH.
Qed.

(** Each width is the largest of its header and its cells. *)
Lemma column_widths_widest (rows : list row) :
  column_widths rows = [widest 0 rows; widest 1 rows; widest 2 rows; widest 3 rows].
Proof.
  unfold column_widths. cbn [headers cells map]. rewrite fold_widen.
  rewrite !fold_left_max. reflexivity.
Qed.

Lemma widest_ge_cell (i : nat) (rows : list row) (r : row) :
  In r rows -> len (nth i (cells r) []) <= widest i rows.
Proof.
  intros H. unfold widest. apply fold_right_max_ge_elem.
  apply (in_map (fun r => len (nth i (cells r) []))). exact H.
Qed.

Lemma widest_ge_header (i : nat) (rows : list row) :
  len (nth i (cells headers) []) <= widest i rows.
Proof. apply fold_right_max_ge_init. Qed.

Lemma len_fmt_format (w0 w1 w2 w3 : Z) (r : row) :
  len (nth 0 (cells r) []) <= w0 -> len (nth 1 (cells r) []) <= w1 ->
  len (nth 2 (cells r) []) <= w2 -> len (nth 3 (cells r) []) <= w3 ->
  len (fmt_format [w0; w1; w2; w3] r) = total [w0; w1; w2; w3] + 9.
Proof.
  destruct r as [[[c0 c1] c2] c3]. cbn [cells nth]. intros H0 H1 H2 H3.
  unfold fmt_format. cbn [cells combine map join total fold_right].
  rewrite !len_app, !len_format_field.
  change (len (lit " | ")) with 3. lia.
Qed.

Lemma len_divider (w0 w1 w2 w3 : Z) :
  0 <= w0 -> 0 <= w1 -> 0 <= w2 -> 0 <= w3 ->
  len (divider [w0; w1; w2; w3]) = total [w0; w1; w2; w3] + 9.
Proof.
  intros. unfold divider. cbn [map join total fold_right].
  rewrite !len_app, !len_repeat_char.
  change (len (lit "-+-")) with 3. lia.
Qed.

(** Every element of [lines] is as long as the widths and the separators
    together. *)
Lemma table_lines_length (rows : list row) :
  Forall (fun line => len line = total (column_widths rows) + 9) (table_lines rows).
Proof.
  unfold table_lines. cbv zeta. rewrite column_widths_widest.
  repeat apply Forall_cons.
  - apply len_fmt_format; apply widest_ge_header.
  - apply len_divider;
      (eapply Z.le_trans; [|apply widest_ge_header]; apply len_nonneg).
  - apply Forall_forall. intros line Hin. apply in_map_iff in Hin.
    destruct Hin as [r [<- Hr]].
    apply len_fmt_format; apply widest_ge_cell; exact Hr.
Qed.

Lemma text_lines_line (line : str) :
  Forall (fun c => c <> 10) line -> text_lines line = [line].
Proof.
  induction 1 as [|c line Hc _ IH]; [reflexivity|].
  cbn [text_lines]. apply Z.eqb_neq in Hc. now rewrite Hc, IH.
Qed.

Lemma text_lines_app (line rest : str) :
  Forall (fun c => c <> 10) line ->
  text_lines (line ++ 10 :: rest) = line :: text_lines rest.
Proof.
  induction 1 as [|c line Hc _ IH]; [reflexivity|].
  cbn [app text_lines]. apply Z.eqb_neq in Hc. now rewrite Hc, IH.
Qed.

(** The lines of lines joined by line feeds are these lines, when none
    of them holds a line feed. *)
Lemma text_lines_join (lines : list str) :
  lines <> [] ->
  Forall (Forall (fun c => c <> 10)) lines ->
  text_lines (join newline lines) = lines.
Proof.
  intros Hne Hall. revert Hne.
  induction Hall as [|line lines Hline Hlines IH]; intros Hne;
    [exfalso; now apply Hne|].
  destruct lines as [|line' lines].
  - cbn [join]. now apply text_lines_line.
  - change (join newline (line :: line' :: lines))
      with (line ++ 10 :: join newline (line' :: lines)).
    rewrite text_lines_app by exact Hline. f_equal. apply IH. discriminate.
Qed.

Lemma repeat_char_no_line_feed (c n : Z) :
  c <> 10 -> Forall (fun x => x <> 10) (repeat_char c n).
Proof.
  intros Hc. apply Forall_forall. intros x Hx.
  apply repeat_spec in Hx. now subst x.
Qed.

Lemma format_field_no_line_feed (w : Z) (cell : str) :
  ~ In 10 cell -> Forall (fun c => c <> 10) (format_field w cell).
Proof.
  intros Hcell. unfold format_field. apply Forall_app. split.
  - apply Forall_forall. intros x Hx ->. exact (Hcell Hx).
  - now apply repeat_char_no_line_feed.
Qed.

Lemma fmt_format_no_line_feed (w0 w1 w2 w3 : Z) (r : row) :
  Forall (fun cell => ~ In 10 cell) (cells r) ->
  Forall (fun c => c <> 10) (fmt_format [w0; w1; w2; w3] r).
Proof.
  destruct r as [[[c0 c1] c2] c3]. cbn [cells]. intros H.
  inversion H as [|? ? H0 H']; subst. inversion H' as [|? ? H1 H'']; subst.
  inversion H'' as [|? ? H2 H''']; subst. inversion H''' as [|? ? H3 _]; subst.
  assert (Hsep : Forall (fun c => c <> 10) (lit " | "))
    by (repeat (constructor; [discriminate|]); constructor).
  unfold fmt_format. cbn [cells combine map join].
  repeat (first [exact Hsep | apply format_field_no_line_feed; assumption
                |apply Forall_app; split]).
Qed.

Lemma divider_no_line_feed (w0 w1 w2 w3 : Z) :
  Forall (fun c => c <> 10) (divider [w0; w1; w2; w3]).
Proof.
  assert (Hsep : Forall (fun c => c <> 10) (lit "-+-"))
    by (repeat (constructor; [discriminate|]); constructor).
  unfold divider. cbn [map join].
  repeat (first [exact Hsep | apply repeat_char_no_line_feed; discriminate
                |apply Forall_app; split]).
Qed.

(** C10, amended: for records in which no rendered cell holds a line feed,
    and any limit, the lines of the rendered text are the header line, the
    divider line and one line for each rendered record; they all have the
    same length, the four column widths and nine separator characters,
    where each width is the largest of the header and the cells of its
    column. *)
Theorem table_lines_aligned (records : list (list (str * value))) (limit : option Z) :
  let rows := map row_of match limit with
                         | Some k => firstn (Z.to_nat k) records
                         | None => records
                         end in
  let widths := [widest 0 rows; widest 1 rows; widest 2 rows; widest 3 rows] in
  Forall (fun r => Forall (fun cell => ~ In 10 cell) (cells r)) rows ->
  exists text,
    build_table (map VDict records) limit = Ok text
    /\ text_lines text
       = fmt_format widths headers :: divider widths :: map (fmt_format widths) rows
    /\ len (text_lines text) = 2 + len rows
    /\ Forall (fun line => len line = total widths + 9) (text_lines text).
Proof.
  intros rows widths Hcells.
  assert (Hrows : collect_rows limit 0 (map VDict records) = Ok rows).
  { rewrite collect_rows_records. unfold rows.
    destruct limit as [k|]; [rewrite Z.sub_0_r|]; reflexivity. }
  assert (Hlines : text_lines (join newline (table_lines rows)) = table_lines rows).
  { apply text_lines_join; [discriminate|].
    unfold table_lines. cbv zeta. rewrite column_widths_widest.
    apply Forall_cons; [|apply Forall_cons].
    - apply fmt_format_no_line_feed. repeat constructor; intros H; cbn in H;
        repeat (destruct H as [H|H]; [discriminate H|]); exact H.
    - apply divider_no_line_feed.
    - apply Forall_forall. intros line Hin. apply in_map_iff in Hin.
      destruct Hin as [r [<- Hr]]. apply fmt_format_no_line_feed.
      rewrite Forall_forall in Hcells. now apply Hcells. }
  exists (join newline (table_lines rows)).
  split; [unfold build_table; now rewrite Hrows|].
  rewrite Hlines. unfold widths. rewrite <- column_widths_widest.
  split; [reflexivity|]. split.
  - unfold table_lines, len. cbv zeta. cbn [app List.length].
    rewrite length_map. lia.
  - apply table_lines_length.
Qed.

End TableFacts.

Section RenderingClaims.
Context {P : Platform}.

(** C1: every falsy timestamp (absent, [None], zero, empty) is rendered by
    the same three characters U+00E2 U+20AC U+201D, not by one em-dash-like
    character; the scenario payload, with no limit, is rendered as the
    header, the divider and one body row whose cells are sys1, these three
    characters twice, and Normal, each padded to the width of its column.
    The three characters are the UTF-8 octets of the em dash read as
    Windows-1252. *)
Theorem falsy_timestamp_placeholder (ms : value) :
  truthy ms = false ->
  _format_ts ms = [226; 8364; 8221]
  /\ (forall c, _format_ts ms <> [c])
  /\ misread [em_dash] = [Some 226; Some 8364; Some 8221]
  /\ render scenario_payload None
     = Ok (join newline
             [lit "Name | Last Successful Probe (UTC) | Last Successful Monitor (UTC) | Condition";
              lit "-----+-----------------------------+-------------------------------+----------";
              lit "sys1 | " ++ [226; 8364; 8221] ++ repeat_char 32 24 ++ lit " | "
              ++ [226; 8364; 8221] ++ repeat_char 32 26 ++ lit " | Normal   "]).
Proof.
  intros H. rewrite (format_ts_falsy ms H).
  repeat split; try discriminate; vm_compute; reflexivity.
Qed.

(** C3, amended: with a limit [k], the body of the table is made of the
    first [min (max k 0) n] of the [n] records, in their order, one whole
    row for each; a negative limit gives no body row. *)
Theorem limit_takes_first_records (records : list (list (str * value))) (k : Z) :
  let rows := map row_of (firstn (Z.to_nat k) records) in
  let widths := column_widths rows in
  build_table (map VDict records) (Some k)
  = Ok (join newline
          (fmt_format widths headers :: divider widths :: map (fmt_format widths) rows))
  /\ len rows = Z.min (Z.max k 0) (len records).
Proof.
  cbv zeta. split.
  - unfold build_table. rewrite collect_rows_records. cbn [rbind].
    rewrite Z.sub_0_r. reflexivity.
  - unfold len. rewrite length_map, length_firstn. lia.
Qed.

End RenderingClaims.

(** C3 as stated fails: with the limit -1 there is no body row, and the
    number of rows is not [min (-1) n]. *)
Lemma negative_limit_counterexample :
  ~ (forall (P : Platform) (records : list (list (str * value))) (k : Z),
        exists rows,
          build_table (map VDict records) (Some k) = Ok (join newline (table_lines rows))
          /\ len rows = Z.min k (len records)).
Proof.
  intros H.
  destruct (H (example_platform (Unreachable []) VNone) [[]] (-1)) as [rows [_ Hlen]].
  pose proof (len_nonneg rows). change (len [[]]) with 1 in Hlen. lia.
Qed.

(** C10 as stated fails: a cell is written as it is, so that a name with
    a line feed breaks its row in two; the lines of the rendered text then
    have the lengths 78, 78, 1 and 76. *)
Lemma line_feed_breaks_alignment :
  (forall P : Platform,
      exists text,
        build_table [VDict [(lit "name", VStr [97; 10; 98])]] None = Ok text
        /\ map len (text_lines text) = [78; 78; 1; 76])
  /\ ~ (forall (P : Platform) (records : list (list (str * value))) (limit : option Z),
          exists text n,
            build_table (map VDict records) limit = Ok text
            /\ Forall (fun line => len line = n) (text_lines text)).
Proof.
  assert (E : forall P : Platform,
             exists text,
               build_table [VDict [(lit "name", VStr [97; 10; 98])]] None = Ok text
               /\ map len (text_lines text) = [78; 78; 1; 76]).
  { intros P. eexists. split; vm_compute; reflexivity. }
  split; [exact E|].
  intros H.
  destruct (H (example_platform (Unreachable []) VNone)
              [[(lit "name", VStr [97; 10; 98])]] None) as [text [n [Htext Hlen]]].
  destruct (E (example_platform (Unreachable []) VNone)) as [text' [Htext' Hlen']].
  cbn [map] in Htext. rewrite Htext' in Htext. injection Htext as <-.
  destruct (text_lines text') as [|l0 [|l1 [|l2 lines]]]; try discriminate Hlen'.
  cbn [map] in Hlen'. injection Hlen' as H0 H1 H2 _.
  inversion Hlen as [|? ? Hn0 Hlen1]; subst.
  inversion Hlen1 as [|? ? Hn1 Hlen2]; subst.
  inversion Hlen2 as [|? ? Hn2 _]; subst. lia.
Qed.

(** ** UTF-8 and URL quoting: what is encoded is read back *)

Module Utf8Facts.
Import Utf8.

Ltac decide_tests :=
  repeat match goal with
         | |- context [?a <? ?b] => destruct (Z.ltb_spec a b); try lia
         | |- context [?a <=? ?b] => destruct (Z.leb_spec a b); try lia
         | |- context [?a =? ?b] => destruct (Z.eqb_spec a b); try lia
         end.

Lemma decode_2 (ignore : bool) (b0 b1 q r : Z) (rest : bytes) :
  b0 = 192 + q -> b1 = 128 + r -> 2 <= q < 32 -> 0 <= r < 64 ->
  decode ignore (b0 :: b1 :: rest) = emit (q * 64 + r) (decode ignore rest).
Proof.
  intros E0 E1 Hq Hr. rewrite decode_equation. unfold is_cont.
  decide_tests. cbn [andb]. f_equal. lia.
Qed.

Lemma decode_3 (ignore : bool) (b0 b1 b2 q m r : Z) (rest : bytes) :
  b0 = 224 + q -> b1 = 128 + m -> b2 = 128 + r ->
  0 <= q < 16 -> 0 <= m < 64 -> 0 <= r < 64 ->
  2048 <= q * 4096 + m * 64 + r ->
  ~ (55296 <= q * 4096 + m * 64 + r <= 57343) ->
  decode ignore (b0 :: b1 :: b2 :: rest)
  = emit (q * 4096 + m * 64 + r) (decode ignore rest).
Proof.
  intros E0 E1 E2 Hq Hm Hr Hlo Hs. rewrite decode_equation. unfold second_of_3, is_cont.
  decide_tests; cbn [andb negb]; f_equal; lia.
Qed.

Lemma decode_4 (ignore : bool) (b0 b1 b2 b3 q n m r : Z) (rest : bytes) :
  b0 = 240 + q -> b1 = 128 + n -> b2 = 128 + m -> b3 = 128 + r ->
  0 <= q < 5 -> 0 <= n < 64 -> 0 <= m < 64 -> 0 <= r < 64 ->
  65536 <= q * 262144 + n * 4096 + m * 64 + r < 1114112 ->
  decode ignore (b0 :: b1 :: b2 :: b3 :: rest)
  = emit (q * 262144 + n * 4096 + m * 64 + r) (decode ignore rest).
Proof.
  intros E0 E1 E2 E3 Hq Hn Hm Hr Hc. rewrite decode_equation. unfold second_of_4, is_cont.
  decide_tests; cbn [andb negb]; f_equal; lia.
Qed.

Lemma decode_encode_char (ignore : bool) (c : Z) (rest : bytes) :
  match encode_char c with
  | Some bs => decode ignore (bs ++ rest) = emit c (decode ignore rest)
  | None => True
  end.
Proof.
  unfold encode_char.
  destruct (Z.ltb_spec c 0); [exact I|].
  destruct (Z.ltb_spec c 128) as [H128|H128].
  { cbn [app]. rewrite decode_equation. apply Z.ltb_lt in H128. rewrite H128. reflexivity. }
  destruct (Z.ltb_spec c 2048).
  { cbn [app].
    replace c with (c / 64 * 64 + c mod 64) at 3 by (Z.div_mod_to_equations; lia).
    apply decode_2; try reflexivity; Z.div_mod_to_equations; lia. }
  destruct (Z.ltb_spec c 65536).
  { destruct ((55296 <=? c) && (c <=? 57343)) eqn:Hs; [exact I|].
    assert (Hs' : ~ (55296 <= c <= 57343)) by (intros [? ?]; apply andb_false_iff in Hs; destruct Hs as [Hs|Hs]; [apply Z.leb_gt in Hs | apply Z.leb_gt in Hs]; lia).
    assert (Hc : c / 4096 * 4096 + c / 64 mod 64 * 64 + c mod 64 = c) by (Z.div_mod_to_equations; lia).
    cbn [app]. rewrite <- Hc at 4.
    apply decode_3; try reflexivity; try rewrite Hc; try assumption; try lia; Z.div_mod_to_equations; lia. }
  destruct (Z.ltb_spec c 1114112); [|exact I].
  assert (Hc : c / 262144 * 262144 + c / 4096 mod 64 * 4096 + c / 64 mod 64 * 64 + c mod 64 = c)
    by (Z.div_mod_to_equations; lia).
  cbn [app]. rewrite <- Hc at 5.
  apply decode_4; try reflexivity; try rewrite Hc; try lia; Z.div_mod_to_equations; lia.
Qed.

Lemma decode_encode (ignore : bool) (s : str) :
  forall bs, encode s = Ok bs -> decode ignore bs = Ok s.
Proof.
  induction s as [|c s IH]; intros bs; cbn [encode].
  - intros [= <-]. reflexivity.
  - pose proof (decode_encode_char ignore c) as Hc.
    destruct (encode_char c) as [cs|]; [|discriminate].
    destruct (encode s) as [rest|]; cbn [rbind]; [|discriminate].
    intros Hbs. injection Hbs as <-. rewrite Hc, (IH _ eq_refl). reflexivity.
Qed.
(** *** The octets the decoder accepts are the encoder's *)







(** *** Where a well-formed sequence starts *)













End Utf8Facts.

Module UrlFacts.
Import Url.

Lemma encode_char_bytes (c : Z) (bs : bytes) :
  Utf8.encode_char c = Some bs -> Forall is_byte bs.
Proof.
  unfold Utf8.encode_char, is_byte.
  destruct (Z.ltb_spec c 0); [discriminate|].
  destruct (Z.ltb_spec c 128); [intros [= <-]; repeat constructor; lia|].
  destruct (Z.ltb_spec c 2048).
  { intros E. apply (f_equal (fun o => match o with Some l => l | None => [] end)) in E.
    subst bs. repeat constructor; Z.div_mod_to_equations; lia. }
  destruct (Z.ltb_spec c 65536).
  { destruct ((55296 <=? c) && (c <=? 57343)); [discriminate|].
    intros E. apply (f_equal (fun o => match o with Some l => l | None => [] end)) in E.
    subst bs. repeat constructor; Z.div_mod_to_equations; lia. }
  destruct (Z.ltb_spec c 1114112); [|discriminate].
  intros E. apply (f_equal (fun o => match o with Some l => l | None => [] end)) in E.
  subst bs. repeat constructor; Z.div_mod_to_equations; lia.
Qed.

Lemma encode_bytes (s : str) :
  forall bs, Utf8.encode s = Ok bs -> Forall is_byte bs.
Proof.
  induction s as [|c s IH]; intros bs; cbn [Utf8.encode].
  - intros [= <-]. constructor.
  - destruct (Utf8.encode_char c) as [cs|] eqn:Hc; [|discriminate].
    destruct (Utf8.encode s) as [rest|]; cbn [rbind]; [|discriminate].
    intros E. injection E as <-. apply Forall_app. split.
    + exact (encode_char_bytes _ _ Hc).
    + apply IH. reflexivity.
Qed.

Lemma hex_value_digit (d : Z) : 0 <= d < 16 -> hex_value (hex_digit d) = Some d.
Proof.
  intros Hd. unfold hex_value, hex_digit.
  destruct (Z.ltb_spec d 10).
  - replace ((48 <=? 48 + d) && (48 + d <=? 57)) with true
      by (symmetry; apply andb_true_iff; split; apply Z.leb_le; lia).
    f_equal. lia.
  - replace ((48 <=? 55 + d) && (55 + d <=? 57)) with false
      by (symmetry; apply andb_false_iff; right; apply Z.leb_gt; lia).
    replace ((65 <=? 55 + d) && (55 + d <=? 70)) with true
      by (symmetry; apply andb_true_iff; split; apply Z.leb_le; lia).
    f_equal. lia.
Qed.

Lemma always_safe_plain (b : Z) : always_safe b = true -> b <> 43 /\ b <> 37.
Proof.
  unfold always_safe. intros H. split; intros ->; discriminate H.
Qed.

Lemma unquote_quote_byte (b : Z) (rest : str) :
  is_byte b ->
  unquote_plus_bytes (quote_byte b ++ rest) = b :: unquote_plus_bytes rest.
Proof.
  intros Hb. unfold quote_byte.
  destruct (always_safe b) eqn:Hsafe.
  - destruct (always_safe_plain b Hsafe) as [H43 H37].
    cbn [app]. rewrite unquote_plus_bytes_equation.
    apply Z.eqb_neq in H43, H37. rewrite H43, H37. reflexivity.
  - destruct (Z.eqb_spec b 32) as [->|H32].
    + cbn [app]. rewrite unquote_plus_bytes_equation. reflexivity.
    + cbn [app]. rewrite unquote_plus_bytes_equation.
      change (37 =? 43) with false. change (37 =? 37) with true. cbv iota.
      unfold is_byte in Hb.
      rewrite !hex_value_digit by (Z.div_mod_to_equations; lia).
      f_equal. Z.div_mod_to_equations; lia.
Qed.

Lemma unquote_quote_bytes (bs : bytes) :
  Forall is_byte bs -> unquote_plus_bytes (flat_map quote_byte bs) = bs.
Proof.
  induction 1 as [|b bs Hb _ IH]; [reflexivity|].
  cbn [flat_map]. rewrite unquote_quote_byte by exact Hb. now rewrite IH.
Qed.

Lemma unquote_quote_plus (s q : str) :
  quote_plus s = Ok q -> unquote_plus q = Ok s.
Proof.
  unfold quote_plus, unquote_plus.
  destruct (Utf8.encode s) as [bs|] eqn:E; cbn [rbind]; [|discriminate].
  intros [= <-]. rewrite unquote_quote_bytes by exact (encode_bytes _ _ E).
  apply Utf8Facts.decode_encode. exact E.
Qed.

End UrlFacts.

(** ** Requests and the token *)

Section NetworkFacts.
Context {P : Platform}.

Lemma request_json_sent url method headers data timeout body_sent (w : world) :
  encode_body data = Ok body_sent ->
  let req := make_request url method headers body_sent timeout in
  request_json url method headers data timeout w
  = (after w (Sent req),
     match server req with
     | Response status charset body =>
         if (200 <=? status) && (status <? 300) then
           (payload <- bytes_decode match charset with
                                    | Some (c :: cs) => c :: cs
                                    | _ => lit "utf-8"
                                    end body ;;
            match json_loads payload with
            | Decoded v => Ok v
            | JSONDecodeError exc =>
                Raise (RuntimeError
                         (lit "Invalid JSON response from " ++ url ++ lit ": " ++ exc))
            | LoadError e => Raise (Builtin e)
            end)%result
         else
           Raise (RuntimeError (lit "HTTP " ++ str_of_int status ++ lit " for " ++ url
                                ++ lit ": " ++ Utf8.decode_ignore body))
     | Unreachable reason =>
         Raise (RuntimeError (lit "Failed to reach " ++ url ++ lit ": " ++ reason))
     end).
Proof.
  intros Hbody req. unfold request_json, urlopen, bind, lift, log, ret, raise, after.
  rewrite Hbody. fold req.
  destruct (server req) as [status charset body|reason]; [|reflexivity].
  destruct ((200 <=? status) && (status <? 300)); [|reflexivity].
  destruct (bytes_decode _ body) as [payload|e]; [|reflexivity].
  cbn [rbind]. destruct (json_loads payload); reflexivity.
Qed.



(** An answer 500 whose body is [a], an octet that is never part of UTF-8,
    the first two octets of a three-octet sequence, and [b]: the message
    holds [ab]. *)
Example ill_formed_octets_are_left_out :
  request_json (P := example_platform (Response 500 None [97; 255; 226; 130; 98]) VNone)
    (lit "https://host/x") (lit "GET") [] None 30 empty_world
  = (after empty_world (Sent (make_request (lit "https://host/x") (lit "GET") [] None 30)),
     Raise (RuntimeError (lit "HTTP 500 for https://host/x: ab"))).
Proof. vm_compute. reflexivity. Qed.

Lemma obtain_token_run api_key tenant_uuid (w : world) :
  obtain_token api_key tenant_uuid w
  = match token_call api_key tenant_uuid w with
    | (w', Ok response) => (w', token_of_response response)
    | (w', Raise e) => (w', Raise e)
    end.
Proof. reflexivity. Qed.

Lemma subscript_field (k : str) (v x : value) :
  field k v = Some x -> subscript v k = Ok x.
Proof.
  destruct v; cbn [field subscript]; try discriminate. now intros ->.
Qed.

Lemma subscript_no_field (k : str) (v : value) :
  field k v = None ->
  subscript v k = Raise (Builtin KeyError) \/ subscript v k = Raise (Builtin TypeError).
Proof.
  destruct v; cbn [field subscript]; auto. intros ->. auto.
Qed.

Lemma token_of_response_missing (response : value) :
  fields_missing response ->
  token_of_response response = Raise (malformed_response response).
Proof.
  unfold token_of_response, malformed_response.
  intros [H|[r [Hr [H|H]]]].
  - destruct (subscript_no_field _ _ H) as [-> | ->]; reflexivity.
  - rewrite (subscript_field _ _ _ Hr). cbn [rbind].
    destruct (subscript_no_field _ _ H) as [-> | ->]; reflexivity.
  - rewrite (subscript_field _ _ _ Hr). cbn [rbind].
    destruct (subscript r (lit "token")) as [tok|e] eqn:Htok.
    + cbn [rbind]. destruct (subscript_no_field _ _ H) as [-> | ->]; reflexivity.
    + destruct r; cbn [field subscript] in *; try discriminate;
        try (injection Htok as <-; reflexivity).
      destruct (lookup (lit "token") items); [discriminate|].
      injection Htok as <-. reflexivity.
Qed.

Lemma token_of_response_fields (response r tok e : value) :
  field (lit "result") response = Some r ->
  field (lit "token") r = Some tok ->
  field (lit "expiration") r = Some e ->
  token_of_response response
  = match py_int e with
    | Ok n => Ok (tok, n)
    | Raise x => if caught x then Raise (malformed_response response) else Raise x
    end.
Proof.
  intros Hr Ht He. unfold token_of_response.
  rewrite (subscript_field _ _ _ Hr). cbn [rbind].
  rewrite (subscript_field _ _ _ Ht). cbn [rbind].
  rewrite (subscript_field _ _ _ He). cbn [rbind].
  destruct (py_int e) as [n|x]; reflexivity.
Qed.

(** C2: a response with [result], and in it a string [token] and an
    integer [expiration], gives exactly that pair; a response in which one
    of the three is missing gives the error for an unusable response. *)
Theorem obtain_token_result api_key tenant_uuid (w w' : world) (response : value) :
  token_call api_key tenant_uuid w = (w', Ok response) ->
  (forall r T E,
      field (lit "result") response = Some r ->
      field (lit "token") r = Some (VStr T) ->
      field (lit "expiration") r = Some (VInt E) ->
      obtain_token api_key tenant_uuid w = (w', Ok (VStr T, E)))
  /\ (fields_missing response ->
      obtain_token api_key tenant_uuid w = (w', Raise (malformed_response response))).
Proof.
  intros Hcall. rewrite obtain_token_run, Hcall. split.
  - intros r T E Hr Ht He. now rewrite (token_of_response_fields _ _ _ _ Hr Ht He).
  - intros H. now rewrite (token_of_response_missing _ H).
Qed.

End NetworkFacts.

(** ** Stripped strings *)

Lemma hd_rev (s : str) : hd 0 (rev s) = last s 0.
Proof.
  induction s as [|x s IH]; [reflexivity|].
  cbn [rev]. destruct s as [|y s]; [reflexivity|].
  change (last (x :: y :: s) 0) with (last (y :: s) 0). rewrite <- IH.
  destruct (rev (y :: s)) eqn:E; [|reflexivity].
  apply (f_equal (@List.length Z)) in E. rewrite length_rev in E. discriminate E.
Qed.

Lemma lstrip_by_head (sp : Z -> bool) (s : str) :
  sp (hd 0 s) = false -> lstrip_by sp s = s.
Proof. destruct s as [|c s]; [reflexivity|]. cbn. now intros ->. Qed.

Lemma strip_by_clean (sp : Z -> bool) (s : str) :
  sp (hd 0 s) = false -> sp (last s 0) = false -> strip_by sp s = s.
Proof.
  intros Hhd Hlast. unfold strip_by, rstrip_by.
  rewrite (lstrip_by_head sp s Hhd), lstrip_by_head, rev_involutive; [reflexivity|].
  now rewrite hd_rev.
Qed.

Lemma last_prefix (p s : str) : s <> [] -> last (p ++ s) 0 = last s 0.
Proof.
  intros Hs. destruct s as [|x s]; [congruence|]. apply last_app_cons.
Qed.

Lemma lstrip_by_blank (sp : Z -> bool) (p s : str) :
  Forall (fun c => sp c = true) p -> lstrip_by sp (p ++ s) = lstrip_by sp s.
Proof.
  induction 1 as [|c p Hc _ IH]; [reflexivity|]. cbn [app lstrip_by]. now rewrite Hc.
Qed.

Lemma strip_by_padded (sp : Z -> bool) (p1 s p2 : str) :
  Forall (fun c => sp c = true) p1 -> Forall (fun c => sp c = true) p2 ->
  s <> [] -> sp (hd 0 s) = false -> sp (last s 0) = false ->
  strip_by sp (p1 ++ s ++ p2) = s.
Proof.
  intros H1 H2 Hs Hhd Hlast. unfold strip_by, rstrip_by.
  rewrite (lstrip_by_blank sp p1 _ H1).
  rewrite (lstrip_by_head sp (s ++ p2)) by (destruct s; [congruence|exact Hhd]).
  rewrite rev_app_distr, lstrip_by_blank by (apply Forall_rev; exact H2).
  rewrite lstrip_by_head by (now rewrite hd_rev).
  apply rev_involutive.
Qed.

(** ** The expiration of the token *)

Lemma int_space_literal_spaces (c : Z) :
  int_space c = true <-> In c literal_spaces.
Proof.
  split.
  - unfold int_space, is_c_space, isspace. intros H.
    repeat (rewrite ?orb_true_iff, ?andb_true_iff in H).
    rewrite ?Z.leb_le, ?Z.eqb_eq in H. unfold literal_spaces.
    assert (Hc : c = 9 \/ c = 10 \/ c = 11 \/ c = 12 \/ c = 13 \/ c = 32 \/ c = 133
                 \/ c = 160 \/ c = 5760 \/ c = 8192 \/ c = 8193 \/ c = 8194 \/ c = 8195
                 \/ c = 8196 \/ c = 8197 \/ c = 8198 \/ c = 8199 \/ c = 8200 \/ c = 8201
                 \/ c = 8202 \/ c = 8232 \/ c = 8233 \/ c = 8239 \/ c = 8287 \/ c = 12288)
      by lia.
    cbn [In]. clear H. intuition auto.
  - unfold literal_spaces. cbn [In].
    intros H. repeat (destruct H as [<-|H]; [reflexivity|]). destruct H.
Qed.

Lemma space_is_no_digit (c : Z) : int_space c = true -> decimal_value c = None.
Proof.
  intros H. apply int_space_literal_spaces in H. unfold literal_spaces in H.
  cbn [In] in H. repeat (destruct H as [<-|H]; [reflexivity|]). destruct H.
Qed.

Lemma digit_is_no_space (c : Z) : decimal_digit c -> int_space c = false.
Proof.
  intros [d Hd]. destruct (int_space c) eqn:E; [|reflexivity].
  rewrite (space_is_no_digit c E) in Hd. discriminate Hd.
Qed.

Lemma join_cons_char (sep : str) (c : Z) (g : str) (gs : list str) :
  join sep ((c :: g) :: gs) = c :: join sep (g :: gs).
Proof. destruct gs; reflexivity. Qed.

Lemma join_cons (sep g : str) (g' : str) (gs : list str) :
  join sep (g :: g' :: gs) = g ++ sep ++ join sep (g' :: gs).
Proof. reflexivity. Qed.

Lemma number_step (digits : str) :
  forall acc,
    fold_left (fun n c => n * 10 + digit_of c) digits acc
    = acc * 10 ^ len digits + number_of digits.
Proof.
  unfold number_of.
  induction digits as [|c digits IH]; intros acc; cbn [fold_left].
  - change (len (@nil Z)) with 0. lia.
  - rewrite IH, (IH (0 * 10 + digit_of c)).
    replace (len (c :: digits)) with (len digits + 1)
      by (unfold len; cbn [List.length]; lia).
    rewrite Z.pow_add_r by (try apply len_nonneg; lia). lia.
Qed.

(** The digits of a group are read one after the other. *)
Lemma parse_digits_group (g rest : str) :
  Forall decimal_digit g ->
  forall acc count b,
    parse_digits acc count b (g ++ rest)
    = parse_digits (fold_left (fun n c => n * 10 + digit_of c) g acc)
        (count + len g)
        match g with
        | [] => b
        | _ => true
        end rest.
Proof.
  induction 1 as [|c g [d Hd] _ IH]; intros acc count b.
  - cbn [app fold_left]. change (len (@nil Z)) with 0. now rewrite Z.add_0_r.
  - assert (Hc : digit_of c = d) by (unfold digit_of; now rewrite Hd).
    cbn [app parse_digits fold_left]. rewrite Hd, IH, Hc.
    replace (count + len (c :: g)) with (count + 1 + len g)
      by (unfold len; cbn [List.length]; lia).
    destruct g; reflexivity.
Qed.

(** Groups of digits joined by underscores are read as the digits of all
    the groups. *)
Lemma parse_digits_groups (groups : list str) :
  groups <> [] ->
  Forall (fun g => g <> [] /\ Forall decimal_digit g) groups ->
  forall acc count,
    parse_digits acc count false (join (lit "_") groups)
    = Some (fold_left (fun n c => n * 10 + digit_of c) (List.concat groups) acc,
            count + len (List.concat groups)).
Proof.
  intros Hne Hall. revert Hne.
  induction Hall as [|g gs [Hg Hdigits] Hgs IH]; intros Hne;
    [exfalso; now apply Hne|].
  intros acc count. destruct gs as [|g' gs].
  - cbn [join List.concat]. rewrite app_nil_r.
    rewrite <- (app_nil_r g) at 1. rewrite (parse_digits_group g [] Hdigits).
    destruct g; [congruence|]. reflexivity.
  - rewrite join_cons, (parse_digits_group g _ Hdigits).
    destruct g as [|c g]; [congruence|].
    change (lit "_" ++ join (lit "_") (g' :: gs)) with (95 :: join (lit "_") (g' :: gs)).
    cbn [parse_digits]. change (decimal_value 95) with (@None Z).
    cbn [Z.eqb Pos.eqb andb]. rewrite IH by discriminate.
    cbn [List.concat]. rewrite !fold_left_app, !len_app. f_equal. f_equal. lia.
Qed.

(** What is read as digits is made of groups of digits joined by
    underscores. *)
Lemma parse_digits_inv (s : str) :
  forall acc count b n k,
    parse_digits acc count b s = Some (n, k) ->
    exists g gs,
      s = join (lit "_") (g :: gs)
      /\ Forall decimal_digit g
      /\ (b = false -> g <> [])
      /\ Forall (fun g => g <> [] /\ Forall decimal_digit g) gs
      /\ n = fold_left (fun n c => n * 10 + digit_of c) (g ++ List.concat gs) acc
      /\ k = count + len (g ++ List.concat gs).
Proof.
  induction s as [|c s IH]; intros acc count b n k H; cbn [parse_digits] in H.
  - destruct b; [|discriminate]. injection H as <- <-.
    exists [], []. repeat split; auto; try discriminate.
    change (len ([] ++ List.concat [])) with 0. lia.
  - destruct (decimal_value c) as [d|] eqn:Hd.
    + destruct (IH _ _ _ _ _ H) as [g [gs [-> [Hg [_ [Hgs [-> ->]]]]]]].
      exists (c :: g), gs. rewrite join_cons_char.
      repeat split; auto.
      * constructor; [now exists d|exact Hg].
      * discriminate.
      * cbn [app fold_left]. replace (digit_of c) with d; [reflexivity|].
        unfold digit_of. now rewrite Hd.
      * rewrite <- app_comm_cons. unfold len. cbn [List.length]. lia.
    + destruct (Z.eqb_spec c 95) as [->|]; [|discriminate].
      destruct b; [|discriminate]. cbn [andb] in H.
      destruct (IH _ _ _ _ _ H) as [g [gs [-> [Hg [Hne [Hgs [-> ->]]]]]]].
      exists [], (g :: gs). repeat split; auto; congruence.
Qed.

Lemma lstrip_by_split (sp : Z -> bool) (s : str) :
  exists a, s = a ++ lstrip_by sp s /\ Forall (fun c => sp c = true) a.
Proof.
  induction s as [|c s [a [Hs Ha]]]; [now exists []|].
  cbn [lstrip_by]. destruct (sp c) eqn:Hc.
  - exists (c :: a). split; [cbn [app]; now rewrite <- Hs|now constructor].
  - now exists [].
Qed.

Lemma strip_by_split (sp : Z -> bool) (s : str) :
  exists a b,
    s = a ++ strip_by sp s ++ b
    /\ Forall (fun c => sp c = true) a /\ Forall (fun c => sp c = true) b.
Proof.
  destruct (lstrip_by_split sp s) as [a [Hs Ha]].
  destruct (lstrip_by_split sp (rev (lstrip_by sp s))) as [b [Ht Hb]].
  exists a, (rev b). split; [|split; [exact Ha|now apply Forall_rev]].
  unfold strip_by, rstrip_by. rewrite <- rev_app_distr, <- Ht, rev_involutive.
  exact Hs.
Qed.

Lemma join_groups_last (sep : str) (groups : list str) :
  groups <> [] ->
  Forall (fun g => g <> [] /\ Forall decimal_digit g) groups ->
  exists front c, join sep groups = front ++ [c] /\ decimal_digit c.
Proof.
  intros Hne Hall. revert Hne.
  induction Hall as [|g gs [Hg Hdigits] Hgs IH]; intros Hne;
    [exfalso; now apply Hne|].
  destruct gs as [|g' gs].
  - cbn [join]. exists (removelast g), (last g 0). split.
    + now apply app_removelast_last.
    + rewrite Forall_forall in Hdigits. apply Hdigits.
      rewrite (app_removelast_last 0 Hg) at 2. apply in_or_app. right. now left.
  - destruct (IH ltac:(discriminate)) as [front [c [Hjoin Hc]]].
    exists (g ++ sep ++ front), c. split; [|exact Hc].
    change (join sep (g :: g' :: gs)) with (g ++ sep ++ join sep (g' :: gs)).
    rewrite Hjoin. now rewrite <- !app_assoc.
Qed.

Lemma join_groups_first (sep : str) (groups : list str) :
  groups <> [] ->
  Forall (fun g => g <> [] /\ Forall decimal_digit g) groups ->
  exists c rest, join sep groups = c :: rest /\ decimal_digit c.
Proof.
  intros Hne Hall. destruct Hall as [|g gs [Hg Hdigits] _]; [exfalso; now apply Hne|].
  destruct g as [|c g]; [exfalso; now apply Hg|]. rewrite join_cons_char.
  exists c, (join sep (g :: gs)). split; [reflexivity|]. now inversion Hdigits.
Qed.

Lemma spaces_are_int_space (p : str) :
  Forall (fun c => In c literal_spaces) p -> Forall (fun c => int_space c = true) p.
Proof.
  intros H. eapply Forall_impl; [|exact H]. intros c. apply int_space_literal_spaces.
Qed.

Lemma int_space_are_spaces (p : str) :
  Forall (fun c => int_space c = true) p -> Forall (fun c => In c literal_spaces) p.
Proof.
  intros H. eapply Forall_impl; [|exact H]. intros c. apply int_space_literal_spaces.
Qed.

Lemma digit_is_no_sign (c : Z) : decimal_digit c -> (c =? 43) = false /\ (c =? 45) = false.
Proof.
  intros [d Hd].
  split; [destruct (Z.eqb_spec c 43) as [->|]|destruct (Z.eqb_spec c 45) as [->|]];
    try reflexivity; discriminate Hd.
Qed.

(** An integer literal is read as the number it writes. *)
Lemma int_of_str_literal (s : str) (n : Z) : int_literal s n -> int_of_str s = Ok n.
Proof.
  intros [before [sg [groups [after_ [-> [Hb [Ha [Hne [Hall [Hlen ->]]]]]]]]]].
  destruct (join_groups_first (lit "_") groups Hne Hall) as [c0 [rest0 [Hfirst Hc0]]].
  destruct (join_groups_last (lit "_") groups Hne Hall) as [front [c1 [Hlast Hc1]]].
  pose proof (parse_digits_groups groups Hne Hall 0 0) as Hparse.
  change (fold_left (fun n c => n * 10 + digit_of c) (List.concat groups) 0)
    with (number_of (List.concat groups)) in Hparse.
  rewrite Z.add_0_l in Hparse.
  assert (Hcore : strip_by int_space (literal before sg groups after_)
                  = sign_text sg ++ join (lit "_") groups).
  { unfold literal. rewrite (app_assoc (sign_text sg)).
    apply strip_by_padded; try (apply spaces_are_int_space; assumption).
    - rewrite Hfirst. destruct sg; discriminate.
    - destruct sg; try reflexivity. cbn [sign_text app]. rewrite Hfirst.
      now apply digit_is_no_space.
    - rewrite Hlast, app_assoc, last_last. now apply digit_is_no_space. }
  unfold int_of_str. rewrite Hcore.
  apply Z.leb_le in Hlen. unfold max_str_digits.
  destruct sg; cbn [sign_text signed].
  - cbn [app]. rewrite Hfirst. destruct (digit_is_no_sign c0 Hc0) as [-> ->].
    rewrite <- Hfirst, Hparse, Hlen. reflexivity.
  - change (lit "+" ++ join (lit "_") groups) with (43 :: join (lit "_") groups).
    cbv iota. rewrite Z.eqb_refl, Hparse, Hlen. reflexivity.
  - change (lit "-" ++ join (lit "_") groups) with (45 :: join (lit "_") groups).
    cbv iota. change (45 =? 43) with false. rewrite Z.eqb_refl, Hparse.
    cbn [option_map]. rewrite Hlen. reflexivity.
Qed.

(** What [int] reads from a string is the number of an integer literal. *)
Lemma int_of_str_ok (s : str) (n : Z) : int_of_str s = Ok n -> int_literal s n.
Proof.
  unfold int_of_str. intros H.
  destruct (strip_by_split int_space s) as [before [after_ [Hs [Hb Ha]]]].
  apply int_space_are_spaces in Hb, Ha.
  assert (Hgroups : forall ds m k,
             parse_digits 0 0 false ds = Some (m, k) ->
             exists groups,
               ds = join (lit "_") groups /\ groups <> []
               /\ Forall (fun g => g <> [] /\ Forall decimal_digit g) groups
               /\ m = number_of (List.concat groups)
               /\ k = len (List.concat groups)).
  { intros ds m k Hp.
    destruct (parse_digits_inv _ _ _ _ _ _ Hp) as [g [gs [-> [Hg [Hne [Hgs [-> ->]]]]]]].
    exists (g :: gs). repeat split; auto; try discriminate. }
  destruct (strip_by int_space s) as [|c ds] eqn:Hcore; [discriminate H|].
  destruct (Z.eqb_spec c 43) as [->|H43]; [|destruct (Z.eqb_spec c 45) as [->|H45]].
  - destruct (parse_digits 0 0 false ds) as [[m k]|] eqn:Hp; [|discriminate H].
    destruct (k <=? max_str_digits) eqn:Hk; [|discriminate H]. injection H as <-.
    destruct (Hgroups _ _ _ Hp) as [groups [-> [Hne [Hall [-> ->]]]]].
    exists before, Plus, groups, after_. apply Z.leb_le in Hk.
    repeat split; auto.
  - destruct (parse_digits 0 0 false ds) as [[m k]|] eqn:Hp; [|discriminate H].
    cbn [option_map] in H.
    destruct (k <=? max_str_digits) eqn:Hk; [|discriminate H]. injection H as <-.
    destruct (Hgroups _ _ _ Hp) as [groups [-> [Hne [Hall [-> ->]]]]].
    exists before, Minus, groups, after_. apply Z.leb_le in Hk.
    repeat split; auto.
  - destruct (parse_digits 0 0 false (c :: ds)) as [[m k]|] eqn:Hp; [|discriminate H].
    destruct (k <=? max_str_digits) eqn:Hk; [|discriminate H]. injection H as <-.
    destruct (Hgroups _ _ _ Hp) as [groups [Hjoin [Hne [Hall [-> ->]]]]].
    exists before, NoSign, groups, after_. apply Z.leb_le in Hk.
    repeat split; auto. unfold literal. cbn [sign_text app]. now rewrite <- Hjoin.
Qed.

Lemma int_of_str_raises (s : str) (e : exn) :
  int_of_str s = Raise e -> e = Builtin ValueError_.
Proof.
  unfold int_of_str.
  destruct (match strip_by int_space s with
            | [] => None
            | c :: ds => _
            end) as [[m k]|]; [destruct (k <=? max_str_digits)|]; congruence.
Qed.

Section CoercionFacts.
Context {P : Platform}.

(** C5, amended: when [expiration] is present, the token exchange fails
    with the error for an unusable response if the value is [None], a list,
    an object, a NaN, or a string that is not an integer literal (white
    space, an optional sign, groups of decimal digits joined by single
    underscores, white space; at most 4300 digits); a finite float gives
    its integer part, a boolean gives 0 or 1, and a string that is an
    integer literal gives the number it writes. *)
Theorem expiration_coercion api_key tenant_uuid (w w' : world)
    (response r tok e : value) :
  token_call api_key tenant_uuid w = (w', Ok response) ->
  field (lit "result") response = Some r ->
  field (lit "token") r = Some tok ->
  field (lit "expiration") r = Some e ->
  let outcome := obtain_token api_key tenant_uuid w in
  (e = VNone \/ (exists xs, e = VList xs) \/ (exists items, e = VDict items)
   \/ e = VFloat S754_nan \/ (exists s, e = VStr s /\ forall n, ~ int_literal s n) ->
   outcome = (w', Raise (malformed_response response)))
  /\ (forall s m x, e = VFloat (S754_finite s m x) ->
      outcome = (w', Ok (tok, cond_Zopp s (if 0 <=? x then Zpos m * 2 ^ x
                                           else Zpos m / 2 ^ (- x)))))
  /\ (forall s, e = VFloat (S754_zero s) -> outcome = (w', Ok (tok, 0)))
  /\ (forall b, e = VBool b -> outcome = (w', Ok (tok, if b then 1 else 0)))
  /\ (forall s n, e = VStr s -> int_literal s n -> outcome = (w', Ok (tok, n))).
Proof.
  intros Hcall Hr Ht He outcome. subst outcome.
  rewrite obtain_token_run, Hcall, (token_of_response_fields _ _ _ _ Hr Ht He).
  repeat split.
  - intros [->|[[xs ->]|[[items ->]|[->|[s [-> Hs]]]]]]; try reflexivity.
    cbn [py_int]. destruct (int_of_str s) as [n|x] eqn:Hn.
    + destruct (Hs n (int_of_str_ok s n Hn)).
    + now rewrite (int_of_str_raises s x Hn).
  - intros s m x ->. reflexivity.
  - intros s ->. reflexivity.
  - intros b ->. reflexivity.
  - intros s n -> Hn. cbn [py_int]. now rewrite (int_of_str_literal s n Hn).
Qed.

End CoercionFacts.

(** C5 as stated fails: the expiration 1.5 does not make the token
    exchange fail; it is taken as 1. *)
Lemma fractional_expiration_is_truncated :
  let P := example_platform (Response 200 None (lit "{}")) fractional_response in
  exists w',
    obtain_token (lit "key") (lit "tenant") empty_world
    = (w', Ok (VStr (lit "T"), 1))
    /\ obtain_token (lit "key") (lit "tenant") empty_world
       <> (w', Raise (malformed_response fractional_response)).
Proof.
  intros P. eexists. split; [vm_compute; reflexivity|discriminate].
Qed.

(** ** The URL of the listing *)

Section ListingFacts.
Context {P : Platform}.

Lemma quote_plus_storage_type :
  Url.quote_plus (lit "storage-type") = Ok (lit "storage-type").
Proof. vm_compute. reflexivity. Qed.

(** C8, amended: for a storage type that is given, not empty and
    encodable as UTF-8, the URL of the listing ends with the one query
    parameter [storage-type], whose value is the storage type quoted for a
    URL (unreserved characters as they are, a space as [+], any other octet
    as [%XX]) and reads back as exactly the storage type, whatever it is;
    without a storage type, or with an empty one, the URL has no query;
    and this URL is the one requested. *)
Theorem storage_type_query (tenant_uuid : str) :
  let base := API_BASE ++ STORAGE_SYSTEMS_PATH tenant_uuid in
  storage_systems_url tenant_uuid None = Ok base
  /\ storage_systems_url tenant_uuid (Some []) = Ok base
  /\ (forall s octets,
        s <> [] -> Utf8.encode s = Ok octets ->
        let quoted := flat_map Url.quote_byte octets in
        storage_systems_url tenant_uuid (Some s)
        = Ok (base ++ lit "?storage-type=" ++ quoted)
        /\ Url.unquote_plus quoted = Ok s)
  /\ (forall storage_type url token w,
        storage_systems_url tenant_uuid storage_type = Ok url ->
        fst (fetch_storage_systems tenant_uuid token storage_type w)
        = after w (Sent (make_request url (lit "GET") [(lit "x-api-token", token)]
                           None 30))).
Proof.
  cbv zeta. split; [|split; [|split]].
  - unfold storage_systems_url. cbn [rbind]. now rewrite !app_nil_r.
  - unfold storage_systems_url. cbn [rbind]. now rewrite !app_nil_r.
  - intros s octets Hs Hoctets. split.
    + destruct s as [|c s]; [congruence|].
      unfold storage_systems_url, Url.urlencode. cbn [Url.urlencode_pairs].
      rewrite quote_plus_storage_type. cbn [rbind].
      unfold Url.quote_plus. rewrite Hoctets. cbn [rbind join].
      rewrite <- !app_assoc. reflexivity.
    + apply UrlFacts.unquote_quote_plus. unfold Url.quote_plus. now rewrite Hoctets.
  - intros storage_type url token w Hurl.
    unfold fetch_storage_systems, bind, lift. rewrite Hurl.
    now rewrite (request_json_sent url (lit "GET") _ None 30 None w eq_refl).
Qed.

End ListingFacts.

(** C8 as stated fails: the storage type [a b] is not in the URL as it
    is; the URL holds [a+b]. *)
Lemma storage_type_is_quoted :
  storage_systems_url (lit "t") (Some (lit "a b"))
  = Ok (API_BASE ++ STORAGE_SYSTEMS_PATH (lit "t") ++ lit "?storage-type=a+b")
  /\ storage_systems_url (lit "t") (Some (lit "a b"))
     <> Ok (API_BASE ++ STORAGE_SYSTEMS_PATH (lit "t") ++ lit "?storage-type=" ++ lit "a b").
Proof.
  split; [vm_compute; reflexivity|]. vm_compute. discriminate.
Qed.

(** ** The run *)

Section RunFacts.
Context {P : Platform}.

Lemma read_creds_world (path : str) (w : world) :
  fst (read_creds path w) = w.
Proof.
  unfold read_creds, bind, exists_, read_text, raise, ret. cbv beta.
  destruct (find_file path (files w)) as [text|] eqn:Hfile; [|reflexivity].
  cbn [negb]. rewrite Hfile. destruct (fold_left creds_line (splitlines text) (None, None)) as [a t].
  destruct a as [[|k0 k]|]; try reflexivity; destruct t as [[|t0 t]|]; reflexivity.
Qed.

Lemma extended_nil (w : world) : extended w [] = w.
Proof. destruct w. unfold extended. cbn. now rewrite app_nil_r. Qed.

Lemma extended_app (w : world) (a b : list event) :
  extended (extended w a) b = extended w (a ++ b).
Proof. unfold extended. cbn. now rewrite app_assoc. Qed.

Lemma when_print (quiet_ : bool) (line : str) (w : world) :
  when (negb quiet_) (print line) w
  = (extended w (if quiet_ then [] else [Printed line]), Ok tt).
Proof.
  destruct quiet_; cbn [negb when]; [|reflexivity].
  unfold ret. now rewrite extended_nil.
Qed.

Lemma token_call_sent api_key tenant_uuid (w : world) :
  fst (token_call api_key tenant_uuid w)
  = extended w [Sent (token_request api_key tenant_uuid)].
Proof.
  unfold token_call.
  now rewrite (request_json_sent _ _ _ (Some (inl (lit "{}"))) 30
                 (Some (lit "{}")) w eq_refl).
Qed.

Lemma obtain_token_sent api_key tenant_uuid (w : world) :
  fst (obtain_token api_key tenant_uuid w)
  = extended w [Sent (token_request api_key tenant_uuid)].
Proof.
  rewrite obtain_token_run. rewrite <- token_call_sent.
  destruct (token_call api_key tenant_uuid w) as [w' [response|e]]; reflexivity.
Qed.

Lemma fetch_sent tenant_uuid token storage_type (w : world) :
  exists sent,
    fst (fetch_storage_systems tenant_uuid token storage_type w) = extended w sent
    /\ only_requests sent.
Proof.
  unfold fetch_storage_systems, bind, lift.
  destruct (storage_systems_url tenant_uuid storage_type) as [url|e].
  - eexists. rewrite (request_json_sent url (lit "GET") _ None 30 None w eq_refl).
    split; [reflexivity|]. repeat constructor. eexists. reflexivity.
  - exists []. split; [now rewrite extended_nil | constructor].
Qed.

(** C7: if the token exchange fails, [main] fails with its exception
    after the one request of the exchange and sends no other; if the fetch
    of the listing fails, [main] fails with its exception and, after the
    token is saved, does nothing but print the expiration and send
    requests: no file is written and no table or payload is printed. *)
Theorem no_partial_success (args : Namespace) (w : world) (api_key tenant_uuid : str) :
  snd (read_creds (creds args) w) = Ok (api_key, tenant_uuid) ->
  let announced := extended w (tenant_line args tenant_uuid) in
  (forall w1 e,
      obtain_token api_key tenant_uuid announced = (w1, Raise e) ->
      main args w = (w1, Raise e)
      /\ w1 = extended w (tenant_line args tenant_uuid
                          ++ [Sent (token_request api_key tenant_uuid)]))
  /\ (forall w1 token expiration_ms w2 w3 e,
        obtain_token api_key tenant_uuid announced = (w1, Ok (token, expiration_ms)) ->
        write_token args token w1 = (w2, Ok tt) ->
        fetch_storage_systems tenant_uuid token (storage_type_of args)
          (extended w2 (expiration_line args expiration_ms)) = (w3, Raise e) ->
        main args w = (w3, Raise e)
        /\ exists sent,
             w3 = extended w2 (expiration_line args expiration_ms ++ sent)
             /\ only_requests sent).
Proof.
  intros Hcreds announced.
  assert (Hread : read_creds (creds args) w = (w, Ok (api_key, tenant_uuid))).
  { pose proof (read_creds_world (creds args) w) as Hw.
    destruct (read_creds (creds args) w) as [w0 r]. cbn [fst snd] in *. congruence. }
  assert (Hline : tenant_line args tenant_uuid
                  = if quiet args then []
                    else [Printed (lit "Using tenant: " ++ tenant_uuid)])
    by reflexivity.
  split.
  - intros w1 e Htoken. split.
    + unfold main. unfold bind at 1. rewrite Hread. unfold bind at 1.
      rewrite when_print, <- Hline. fold announced.
      unfold bind at 1. now rewrite Htoken.
    + pose proof (obtain_token_sent api_key tenant_uuid announced) as Hsent.
      rewrite Htoken in Hsent. cbn [fst] in Hsent. subst w1 announced.
      now rewrite extended_app.
  - intros w1 token expiration_ms w2 w3 e Htoken Hwrite Hfetch. split.
    + unfold main. unfold bind at 1. rewrite Hread. unfold bind at 1.
      rewrite when_print, <- Hline. fold announced.
      unfold bind at 1. rewrite Htoken.
      unfold bind at 1. rewrite Hwrite. unfold bind at 1. rewrite when_print.
      fold (expiration_line args expiration_ms).
      unfold bind at 1.
      match goal with
      | |- context [fetch_storage_systems ?a ?b ?c ?d] =>
          change (fetch_storage_systems a b c d)
            with (fetch_storage_systems tenant_uuid token (storage_type_of args)
                    (extended w2 (expiration_line args expiration_ms)))
      end.
      now rewrite Hfetch.
    + destruct (fetch_sent tenant_uuid token (storage_type_of args)
                  (extended w2 (expiration_line args expiration_ms)))
        as [sent [Hsent Honly]].
      rewrite Hfetch in Hsent. cbn [fst] in Hsent.
      exists sent. split; [|exact Honly]. now rewrite <- extended_app.
Qed.

End RunFacts.

(** ** Credentials *)

Lemma str_eqb_refl (s : str) : str_eqb s s = true.
Proof. induction s as [|c s IH]; [reflexivity|]. cbn. now rewrite Z.eqb_refl. Qed.

Lemma str_eqb_eq (a b : str) : str_eqb a b = true -> a = b.
Proof.
  revert b. induction a as [|x a IH]; intros [|y b]; cbn; try discriminate; [reflexivity|].
  intros H. apply andb_true_iff in H. destruct H as [Hx Hab].
  apply Z.eqb_eq in Hx. subst. f_equal. apply IH, Hab.
Qed.

Section CredentialFacts.
Context {P : Platform}.

Lemma creds_line_entry (st : option str * option str) (raw_line : str) :
  creds_line st raw_line
  = match entry_of_line raw_line with
    | None => st
    | Some (k, v) =>
        if str_eqb k (lit "apikey") then (Some v, snd st)
        else if str_eqb k (lit "tenantid") then (fst st, Some v)
        else st
    end.
Proof.
  unfold creds_line, entry_of_line. cbv zeta.
  destruct (strip raw_line) as [|c line]; [reflexivity|].
  destruct (startswith (lit "#") (c :: line)); [reflexivity|].
  destruct (contains_char 58 (c :: line)); [|reflexivity].
  cbn [negb orb]. destruct (split_once 58 (c :: line)) as [key value]. reflexivity.
Qed.

Lemma last_value_app (key : str) (a b : list (str * str)) :
  last_value key (a ++ b) = or_else (last_value key b) (last_value key a).
Proof.
  induction a as [|[k v] a IH]; cbn [app last_value].
  - destruct (last_value key b); reflexivity.
  - rewrite IH. destruct (last_value key b); [reflexivity|]. cbn [or_else].
    reflexivity.
Qed.

Lemma fold_creds_line (lines : list str) :
  forall a t,
    fold_left creds_line lines (a, t)
    = (or_else (last_value (lit "apikey")
                  (flat_map (fun l => match entry_of_line l with
                                      | Some e => [e]
                                      | None => []
                                      end) lines)) a,
       or_else (last_value (lit "tenantid")
                  (flat_map (fun l => match entry_of_line l with
                                      | Some e => [e]
                                      | None => []
                                      end) lines)) t).
Proof.
  induction lines as [|l lines IH]; intros a t; [reflexivity|].
  cbn [fold_left flat_map]. rewrite creds_line_entry, !last_value_app.
  destruct (entry_of_line l) as [[k v]|]; cbn [last_value fst snd].
  - destruct (str_eqb k (lit "apikey")) eqn:Ha;
      [apply str_eqb_eq in Ha; subst k;
       change (str_eqb (lit "apikey") (lit "tenantid")) with false
      |destruct (str_eqb k (lit "tenantid"))];
      rewrite IH;
      repeat match goal with
             | |- context [last_value ?key ?es] => destruct (last_value key es)
             end; reflexivity.
  - rewrite IH.
    repeat match goal with
           | |- context [last_value ?key ?es] => destruct (last_value key es)
           end; reflexivity.
Qed.

Lemma read_creds_run (path text : str) (w : world) :
  find_file path (files w) = Some text ->
  read_creds path w
  = match entry (lit "apikey") text, entry (lit "tenantid") text with
    | Some (k0 :: k), Some (t0 :: t) => (w, Ok (k0 :: k, t0 :: t))
    | _, _ => (w, Raise creds_error)
    end.
Proof.
  intros Hfile.
  unfold read_creds, bind, exists_, read_text, raise, ret. cbv beta.
  rewrite Hfile. cbn [negb]. rewrite Hfile, fold_creds_line.
  fold (entries text). fold (entry (lit "apikey") text).
  fold (entry (lit "tenantid") text).
  destruct (entry (lit "apikey") text) as [[|k0 k]|],
           (entry (lit "tenantid") text) as [[|t0 t]|]; reflexivity.
Qed.

End CredentialFacts.

Lemma splitlines_from_line (a rest : str) :
  Forall (fun c => is_linebreak c = false) a ->
  forall cur,
    splitlines_from cur (a ++ 10 :: rest) = (rev cur ++ a) :: splitlines_from [] rest.
Proof.
  induction 1 as [|x a Hx _ IH]; intros cur; cbn [app splitlines_from].
  - change (is_linebreak 10) with true. cbv iota. now rewrite app_nil_r.
  - rewrite Hx, IH. cbn [rev]. now rewrite <- app_assoc.
Qed.

Section CredentialRoundTrip.
Context {P : Platform}.

Lemma entry_of_clean_line (key value : str) :
  clean value ->
  isspace (hd 0 key) = false -> key <> [] ->
  contains_char 58 key = false -> startswith (lit "#") key = false ->
  isspace (last key 0) = false ->
  entry_of_line (key ++ 58 :: value) = Some (lower key, value).
Proof.
  intros [Hne [Hline [Hhd Hlast]]] Hkhd Hkne Hcolon Hhash Hklast.
  unfold entry_of_line. cbv zeta. unfold strip.
  assert (Hstrip : strip_by isspace (key ++ 58 :: value) = key ++ 58 :: value).
  { apply strip_by_clean.
    - destruct key; [congruence|exact Hkhd].
    - rewrite last_app_cons. change (last (58 :: value) 0) with (last ([58] ++ value) 0).
      now rewrite last_prefix. }
  rewrite Hstrip.
  assert (Hsplit : split_once 58 (key ++ 58 :: value) = (key, value)).
  { clear -Hcolon. induction key as [|c key IH]; [reflexivity|].
    cbn [app split_once]. unfold contains_char in *. cbn [existsb] in Hcolon.
    apply orb_false_iff in Hcolon. destruct Hcolon as [Hc Hrest].
    rewrite Z.eqb_sym, Hc, (IH Hrest). reflexivity. }
  assert (Hstart : startswith (lit "#") (key ++ 58 :: value) = false).
  { destruct key as [|c key]; [congruence|]. exact Hhash. }
  assert (Hcontains : contains_char 58 (key ++ 58 :: value) = true).
  { unfold contains_char. rewrite existsb_app. cbn [existsb].
    rewrite Z.eqb_refl. now rewrite orb_true_r. }
  destruct (key ++ 58 :: value) eqn:E; [destruct key; discriminate E|].
  rewrite Hstart, Hcontains. cbn [negb orb]. rewrite Hsplit.
  rewrite (strip_by_clean isspace key Hkhd Hklast),
          (strip_by_clean isspace value Hhd Hlast).
  reflexivity.
Qed.

(** X2: what is written in a credentials file is what [read_creds] returns. *)
Lemma read_creds_round_trip (path api_key tenant_id : str) (w : world) :
  clean api_key -> clean tenant_id ->
  find_file path (files w) = Some (creds_file api_key tenant_id) ->
  read_creds path w = (w, Ok (api_key, tenant_id)).
Proof.
  intros Hk Ht Hfile. rewrite (read_creds_run _ _ _ Hfile).
  assert (Hentries : entries (creds_file api_key tenant_id)
                     = [(lit "apikey", api_key); (lit "tenantid", tenant_id)]).
  { unfold entries, creds_file, splitlines.
    change (lit "apikey:" ++ api_key ++ [10] ++ lit "tenantid:" ++ tenant_id ++ [10])
      with ((lit "apikey" ++ 58 :: api_key) ++ 10 :: (lit "tenantid" ++ 58 :: tenant_id) ++ 10 :: []).
    assert (Hno : forall key value,
               Forall (fun c => is_linebreak c = false) key -> clean value ->
               Forall (fun c => is_linebreak c = false) (key ++ 58 :: value)).
    { intros key value Hkey [_ [Hv _]]. apply Forall_app. split; [exact Hkey|].
      constructor; [reflexivity|exact Hv]. }
    rewrite splitlines_from_line
      by (apply Hno; [repeat constructor|exact Hk]).
    rewrite splitlines_from_line
      by (apply Hno; [repeat constructor|exact Ht]).
    cbn [rev app flat_map splitlines_from].
    rewrite !entry_of_clean_line by (try assumption; try reflexivity; discriminate).
    reflexivity. }
  unfold entry. rewrite Hentries.
  destruct Hk as [Hk _], Ht as [Ht _].
  destruct api_key; [congruence|]. destruct tenant_id; [congruence|].
  reflexivity.
Qed.

End CredentialRoundTrip.
(** ** Closed instances *)

Lemma falsy_timestamp_placeholder_witness :
  _format_ts (P := offline) (VInt 0) = [226; 8364; 8221].
Proof.
  exact (proj1 (falsy_timestamp_placeholder (P := offline) (VInt 0) eq_refl)).
Defined.

Lemma table_lines_aligned_witness :
  exists text,
    build_table (P := offline)
      [VDict [(lit "name", VStr (lit "sys1")); (lit "condition", VStr (lit "Normal"))];
       VDict [(lit "name", VStr (lit "sys2"))]] (Some 1)
    = Ok text
    /\ text_lines text
       = [lit "Name | Last Successful Probe (UTC) | Last Successful Monitor (UTC) | Condition";
          lit "-----+-----------------------------+-------------------------------+----------";
          lit "sys1 | " ++ [226; 8364; 8221] ++ repeat_char 32 24 ++ lit " | "
          ++ [226; 8364; 8221] ++ repeat_char 32 26 ++ lit " | Normal   "]
    /\ len (text_lines text) = 2 + 1
    /\ Forall (fun line => len line = 69 + 9) (text_lines text).
Proof.
  apply (table_lines_aligned (P := offline)
           [[(lit "name", VStr (lit "sys1")); (lit "condition", VStr (lit "Normal"))];
            [(lit "name", VStr (lit "sys2"))]] (Some 1)).
  repeat constructor; intros H; cbn in H;
    repeat (destruct H as [H|H]; [discriminate H|]); exact H.
Defined.

Lemma obtain_token_result_witness :
  obtain_token (P := answering token_response) (lit "key") (lit "tenant") empty_world
  = (extended empty_world [Sent (token_request (lit "key") (lit "tenant"))],
     Ok (VStr (lit "T"), 1700000000000)).
Proof.
  apply (proj1 (obtain_token_result (P := answering token_response)
                  (lit "key") (lit "tenant") empty_world _ token_response eq_refl)
           (VDict [(lit "token", VStr (lit "T")); (lit "expiration", VInt 1700000000000)]));
    reflexivity.
Defined.

Lemma expiration_coercion_witness :
  obtain_token (P := answering fractional_response) (lit "key") (lit "tenant") empty_world
  = (extended empty_world [Sent (token_request (lit "key") (lit "tenant"))],
     Ok (VStr (lit "T"), 1)).
Proof.
  exact (proj1 (proj2 (expiration_coercion (P := answering fractional_response)
                         (lit "key") (lit "tenant") empty_world _ fractional_response
                         (VDict [(lit "token", VStr (lit "T"));
                                 (lit "expiration", VFloat one_and_a_half)])
                         (VStr (lit "T")) (VFloat one_and_a_half)
                         eq_refl eq_refl eq_refl eq_refl))
           false 6755399441055744%positive (-52) eq_refl).
Defined.


Lemma no_partial_success_witness :
  main (P := offline) every_output creds_world
  = (extended creds_world
       [Printed (lit "Using tenant: t-1"); Sent (token_request (lit "abc") (lit "t-1"))],
     Raise (RuntimeError
              (lit "Failed to reach https://dev.insights.ibm.com/restapi/v1/tenants/t-1/token: down"))).
Proof.
  apply (proj1 (proj1 (no_partial_success (P := offline) every_output creds_world
                         (lit "abc") (lit "t-1") eq_refl) _ _ eq_refl)).
Defined.

Lemma storage_type_query_witness :
  storage_systems_url (lit "t-1") (Some (lit "block"))
  = Ok (API_BASE ++ STORAGE_SYSTEMS_PATH (lit "t-1") ++ lit "?storage-type=block").
Proof.
  exact (proj1 (proj1 (proj2 (proj2 (storage_type_query (P := offline) (lit "t-1"))))
                  (lit "block") (lit "block") ltac:(discriminate) eq_refl)).
Defined.

(* ================================================================== *)
(** * Further properties *)

(** ** The table: limits, records that are not objects, other fields *)

Section MoreTableFacts.
Context {P : Platform}.

Lemma collect_rows_wide_limit (items : list value) :
  forall idx k,
    idx + len items <= k ->
    collect_rows (Some k) idx items = collect_rows None idx items.
Proof.
  induction items as [|item items IH]; intros idx k Hk; [reflexivity|].
  cbn [collect_rows]. unfold len in Hk. cbn [List.length] in Hk.
  replace (k <=? idx) with false by (symmetry; apply Z.leb_gt; lia).
  rewrite (IH (idx + 1) k) by (unfold len; lia). reflexivity.
Qed.

(** X16: without a limit the table is the header line, the divider line
    and one line for every record, in the order of the records, joined by
    line feeds. *)
Theorem no_limit_renders_all (records : list (list (str * value))) :
  let rows := map row_of records in
  let widths := column_widths rows in
  build_table (map VDict records) None
  = Ok (join newline
          (fmt_format widths headers :: divider widths :: map (fmt_format widths) rows)).
Proof.
  cbv zeta. unfold build_table. now rewrite collect_rows_records.
Qed.

(** X17: a limit that is not below the number of items changes nothing,
    whatever the items are. *)
Theorem wide_limit_is_no_limit (items : list value) (k : Z) :
  len items <= k ->
  build_table items (Some k) = build_table items None.
Proof.
  intros Hk. unfold build_table. now rewrite collect_rows_wide_limit by lia.
Qed.

(** X18: with no item, or with a limit of zero or less, the table is the
    header and the divider alone; the items are not even looked at. *)
Theorem nothing_to_render (items : list value) (limit : option Z) :
  items = [] \/ (exists k, limit = Some k /\ k <= 0) ->
  build_table items limit = Ok empty_table.
Proof.
  intros [->|[k [-> Hk]]]; [reflexivity|].
  unfold build_table. destruct items as [|item items]; [reflexivity|].
  cbn [collect_rows]. replace (k <=? 0) with true by (symmetry; apply Z.leb_le; lia).
  reflexivity.
Qed.

Lemma collect_rows_stops_before (records : list (list (str * value)))
    (tail : list value) (k : Z) :
  forall idx,
    k <= idx + len records ->
    collect_rows (Some k) idx (map VDict records ++ tail)
    = collect_rows (Some k) idx (map VDict records).
Proof.
  induction records as [|d records IH]; intros idx Hk.
  - cbn [map app]. unfold len in Hk. cbn [List.length] in Hk.
    destruct tail as [|item tail]; [reflexivity|]. cbn [collect_rows].
    replace (k <=? idx) with true by (symmetry; apply Z.leb_le; lia). reflexivity.
  - cbn [map app collect_rows]. destruct (k <=? idx); [reflexivity|].
    cbn [get rbind]. rewrite IH; [reflexivity|].
    unfold len in *. cbn [List.length] in Hk. lia.
Qed.

Lemma collect_rows_reaches (records : list (list (str * value)))
    (bad : value) (tail : list value) (limit : option Z) :
  is_record bad = false ->
  forall idx,
    match limit with
    | Some k => idx + len records < k
    | None => True
    end ->
    collect_rows limit idx (map VDict records ++ bad :: tail)
    = Raise (Builtin AttributeError).
Proof.
  intros Hbad. induction records as [|d records IH]; intros idx Hk.
  - cbn [map app collect_rows]. unfold len in Hk. cbn [List.length] in Hk.
    replace (match limit with Some k => k <=? idx | None => false end) with false
      by (destruct limit as [k|]; [symmetry; apply Z.leb_gt; lia | reflexivity]).
    destruct bad; try reflexivity. discriminate Hbad.
  - cbn [map app collect_rows]. unfold len in Hk. cbn [List.length] in Hk.
    replace (match limit with Some k => k <=? idx | None => false end) with false
      by (destruct limit as [k|]; [symmetry; apply Z.leb_gt; lia | reflexivity]).
    cbn [get rbind]. rewrite IH; [reflexivity|].
    destruct limit as [k|]; [unfold len; lia | exact I].
Qed.

(** X19: an item that is not an object makes the rendering fail with an
    [AttributeError] when the loop reaches it, that is without a limit or
    with a limit above its position; a limit at or below its position
    keeps it out of the table, which is then the table of the records
    before it. *)
Theorem item_that_is_no_record (records : list (list (str * value)))
    (bad : value) (tail : list value) :
  is_record bad = false ->
  build_table (map VDict records ++ bad :: tail) None = Raise (Builtin AttributeError)
  /\ (forall k, len records < k ->
        build_table (map VDict records ++ bad :: tail) (Some k)
        = Raise (Builtin AttributeError))
  /\ (forall k, k <= len records ->
        build_table (map VDict records ++ bad :: tail) (Some k)
        = build_table (map VDict records) (Some k)).
Proof.
  intros Hbad. unfold build_table. repeat split.
  - now rewrite (collect_rows_reaches records bad tail None Hbad 0 I).
  - intros k Hk. now rewrite (collect_rows_reaches records bad tail (Some k) Hbad 0 Hk).
  - intros k Hk. now rewrite collect_rows_stops_before by lia.
Qed.

Lemma str_eqb_neq (a b : str) : a <> b -> str_eqb a b = false.
Proof.
  intros H. destruct (str_eqb a b) eqn:E; [|reflexivity].
  apply str_eqb_eq in E. contradiction.
Qed.

Lemma lookup_other (key k : str) (v : value) (before rest : list (str * value)) :
  key <> k ->
  lookup key (before ++ (k, v) :: rest) = lookup key (before ++ rest).
Proof.
  intros Hk. induction before as [|[k' v'] before IH]; cbn [app lookup].
  - now rewrite (str_eqb_neq key k Hk).
  - now rewrite IH.
Qed.

Lemma collect_rows_same_fields (limit : option Z) (d d' : list (str * value))
    (later : list value) :
  Forall (fun key => lookup key d = lookup key d') row_fields ->
  forall earlier idx,
    collect_rows limit idx (earlier ++ VDict d :: later)
    = collect_rows limit idx (earlier ++ VDict d' :: later).
Proof.
  intros Hsame.
  inversion Hsame as [|? ? H0 Hsame1]; subst.
  inversion Hsame1 as [|? ? H1 Hsame2]; subst.
  inversion Hsame2 as [|? ? H2 Hsame3]; subst.
  inversion Hsame3 as [|? ? H3 _]; subst.
  induction earlier as [|item earlier IH]; intros idx; cbn [app collect_rows].
  - cbn [get]. now rewrite H0, H1, H2, H3.
  - destruct (match limit with
              | Some k => k <=? idx
              | None => false
              end); [reflexivity|].
    destruct item; try reflexivity. cbn [get rbind]. now rewrite IH.
Qed.

(** X20: a field with another name than the four of a row, in any record
    of the listing and anywhere in it, does not count: the table is the
    header line, the divider line and the lines of the records as they are
    without that field. *)
Theorem other_fields_ignored (k : str) (v : value) (before rest : list (str * value))
    (earlier later : list (list (str * value))) (limit : option Z) :
  ~ In k row_fields ->
  let records := earlier ++ (before ++ rest) :: later in
  let rows := map row_of match limit with
                         | Some n => firstn (Z.to_nat n) records
                         | None => records
                         end in
  let widths := column_widths rows in
  build_table (map VDict (earlier ++ (before ++ (k, v) :: rest) :: later)) limit
  = Ok (join newline
          (fmt_format widths headers :: divider widths :: map (fmt_format widths) rows)).
Proof.
  intros Hk. cbv zeta. unfold build_table.
  rewrite map_app. cbn [map].
  rewrite (collect_rows_same_fields limit (before ++ (k, v) :: rest) (before ++ rest)).
  - change (map VDict earlier ++ VDict (before ++ rest) :: map VDict later)
      with (map VDict earlier ++ map VDict ((before ++ rest) :: later)).
    rewrite <- map_app, collect_rows_records.
    destruct limit; [rewrite Z.sub_0_r|]; reflexivity.
  - unfold row_fields in *.
    repeat (constructor; [apply lookup_other; intros <-; apply Hk; cbn [In]; tauto|]).
    constructor.
Qed.

End MoreTableFacts.

(** ** Timestamps that cannot be converted *)

Section MoreTimestampFacts.
Context {P : Platform}.

(** X15: a timestamp that is a non-empty string is rendered as that string; a
    non-empty list or object, a NaN and an infinity are rendered by their
    [repr]: the conversion fails and the failure is swallowed. *)
Theorem unconvertible_timestamp_as_text :
  (forall s, s <> [] -> _format_ts (VStr s) = s)
  /\ (forall xs, xs <> [] -> _format_ts (VList xs) = repr_value (VList xs))
  /\ (forall items, items <> [] -> _format_ts (VDict items) = repr_value (VDict items))
  /\ _format_ts (VFloat S754_nan) = repr_value (VFloat S754_nan)
  /\ (forall sign, _format_ts (VFloat (S754_infinity sign))
                   = repr_value (VFloat (S754_infinity sign))).
Proof.
  split; [|split; [|split; [|split]]].
  - intros [|c s] H; [congruence|reflexivity].
  - intros [|x xs] H; [congruence|reflexivity].
  - intros [|x xs] H; [congruence|reflexivity].
  - reflexivity.
  - intros sign. reflexivity.
Qed.

End MoreTimestampFacts.

(** ** Requests: what is sent, what comes back *)

Lemma encode_raises (s : str) (e : exn) :
  Utf8.encode s = Raise e -> e = Builtin UnicodeEncodeError.
Proof.
  induction s as [|c s IH]; cbn [Utf8.encode]; [discriminate|].
  destruct (Utf8.encode_char c); [|now intros [= <-]].
  destruct (Utf8.encode s) as [rest|e']; cbn [rbind]; [discriminate|].
  intros [= <-]. now apply IH.
Qed.

Lemma decode_raises (bs : bytes) (e : exn) :
  Utf8.decode false bs = Raise e -> e = Builtin UnicodeDecodeError.
Proof.
  functional induction (Utf8.decode false bs);
    unfold Utf8.emit, Utf8.malformed;
    try discriminate;
    try (intros [= <-]; reflexivity);
    try (destruct (Utf8.decode false _) as [s'|e'] eqn:E; cbn [rbind];
         [discriminate | intros [= <-]; now apply IHr]).
Qed.

Section MoreRequestFacts.
Context {P : Platform}.

(** X6: when the server cannot be reached, the request fails, after it was
    sent, with the error that names the URL and the reason. *)
Theorem unreachable_server url method headers data timeout body_sent reason (w : world) :
  encode_body data = Ok body_sent ->
  server (make_request url method headers body_sent timeout) = Unreachable reason ->
  request_json url method headers data timeout w
  = (after w (Sent (make_request url method headers body_sent timeout)),
     Raise (RuntimeError (lit "Failed to reach " ++ url ++ lit ": " ++ reason))).
Proof.
  intros Hbody Hserver.
  rewrite (request_json_sent _ _ _ _ _ _ _ Hbody). cbv zeta. now rewrite Hserver.
Qed.

(** X7: when the server answers with a status from 200 to 299 and a body
    that is the UTF-8 form of a text, with no charset, an empty one or
    [utf-8], the result is what [json.loads] makes of the text: its value;
    for a [JSONDecodeError], the error that names the URL and the reason;
    any other exception of [json.loads] leaves the request as it is. *)
Theorem successful_answer url method headers data timeout body_sent
    status charset body text (w : world) :
  encode_body data = Ok body_sent ->
  server (make_request url method headers body_sent timeout)
  = Response status charset body ->
  200 <= status < 300 ->
  utf8_charset charset ->
  Utf8.encode text = Ok body ->
  request_json url method headers data timeout w
  = (after w (Sent (make_request url method headers body_sent timeout)),
     match json_loads text with
     | Decoded v => Ok v
     | JSONDecodeError exc =>
         Raise (RuntimeError (lit "Invalid JSON response from " ++ url ++ lit ": " ++ exc))
     | LoadError e => Raise (Builtin e)
     end).
Proof.
  intros Hbody Hserver Hstatus Hcharset Htext.
  rewrite (request_json_sent _ _ _ _ _ _ _ Hbody). cbv zeta. rewrite Hserver.
  replace ((200 <=? status) && (status <? 300)) with true
    by (symmetry; apply andb_true_iff; split; [apply Z.leb_le | apply Z.ltb_lt]; lia).
  assert (Hdecode : bytes_decode match charset with
                                 | Some (c :: cs) => c :: cs
                                 | _ => lit "utf-8"
                                 end body = Ok text).
  { destruct Hcharset as [->|[->| ->]];
      unfold bytes_decode; cbn [str_eqb lit];
      apply Utf8Facts.decode_encode; exact Htext. }
  rewrite Hdecode. reflexivity.
Qed.

(** X8: a body that is not UTF-8, in an answer with a status from 200 to 299
    and no other charset, makes the request fail with a
    [UnicodeDecodeError]: this one is not turned into a [RuntimeError]. *)
Theorem undecodable_answer url method headers data timeout body_sent
    status charset body (w : world) :
  encode_body data = Ok body_sent ->
  server (make_request url method headers body_sent timeout)
  = Response status charset body ->
  200 <= status < 300 ->
  utf8_charset charset ->
  (forall text, Utf8.decode false body <> Ok text) ->
  request_json url method headers data timeout w
  = (after w (Sent (make_request url method headers body_sent timeout)),
     Raise (Builtin UnicodeDecodeError)).
Proof.
  intros Hbody Hserver Hstatus Hcharset Hbad.
  rewrite (request_json_sent _ _ _ _ _ _ _ Hbody). cbv zeta. rewrite Hserver.
  replace ((200 <=? status) && (status <? 300)) with true
    by (symmetry; apply andb_true_iff; split; [apply Z.leb_le | apply Z.ltb_lt]; lia).
  assert (Hdecode : bytes_decode match charset with
                                 | Some (c :: cs) => c :: cs
                                 | _ => lit "utf-8"
                                 end body = Raise (Builtin UnicodeDecodeError)).
  { assert (Hraw : Utf8.decode false body = Raise (Builtin UnicodeDecodeError)).
    { destruct (Utf8.decode false body) as [text|e] eqn:E.
      - now destruct (Hbad text).
      - now rewrite (decode_raises body e E). }
    destruct Hcharset as [->|[->| ->]]; unfold bytes_decode; cbn [str_eqb lit];
      exact Hraw. }
  rewrite Hdecode. reflexivity.
Qed.

(** X9: a body given as a string that has no UTF-8 form (a lone surrogate)
    makes the request fail with a [UnicodeEncodeError] before anything is
    sent. *)
Theorem unencodable_body url method headers timeout s (w : world) :
  (forall octets, Utf8.encode s <> Ok octets) ->
  request_json url method headers (Some (inl s)) timeout w
  = (w, Raise (Builtin UnicodeEncodeError)).
Proof.
  intros Hbad. unfold request_json, bind, lift, encode_body.
  destruct (Utf8.encode s) as [octets|e] eqn:E; [now destruct (Hbad octets)|].
  cbn [rbind]. now rewrite (encode_raises s e E).
Qed.

(** X10: a request never prints and never writes a file: it leaves the
    world as it is but for the one request it opens, which is the one made
    of its arguments, with the [Accept] header added before any other. *)
Theorem request_json_effects url method headers data timeout (w : world) :
  fst (request_json url method headers data timeout w) = w
  \/ exists body,
       fst (request_json url method headers data timeout w)
       = after w (Sent (make_request url method headers body timeout))
       /\ hd_error (req_headers (make_request url method headers body timeout))
          = Some (lit "Accept", VStr (lit "application/json")).
Proof.
  destruct (encode_body data) as [body|e] eqn:Hbody.
  - right. exists body. rewrite (request_json_sent _ _ _ _ _ _ _ Hbody).
    split; reflexivity.
  - left. unfold request_json, bind, lift. now rewrite Hbody.
Qed.

End MoreRequestFacts.

(** ** The token exchange and the listing: further cases *)

Section MoreTokenFacts.
Context {P : Platform}.

(** X12: an infinite [expiration] makes the token exchange fail with an
    [OverflowError], which the handler does not turn into the error for an
    unusable response. *)
Theorem infinite_expiration_overflows api_key tenant_uuid (w w' : world)
    (response r tok : value) (sign : bool) :
  token_call api_key tenant_uuid w = (w', Ok response) ->
  field (lit "result") response = Some r ->
  field (lit "token") r = Some tok ->
  field (lit "expiration") r = Some (VFloat (S754_infinity sign)) ->
  obtain_token api_key tenant_uuid w = (w', Raise (Builtin OverflowError)).
Proof.
  intros Hcall Hr Ht He.
  now rewrite obtain_token_run, Hcall, (token_of_response_fields _ _ _ _ Hr Ht He).
Qed.

(** X11: whatever the answer, the token exchange sends exactly one request and
    does nothing else: a POST to the token path of the tenant, with the API
    key in the header [x-api-key] and the body [{}]. *)
Theorem token_exchange_sends_one_request api_key tenant_uuid (w : world) :
  fst (obtain_token api_key tenant_uuid w)
  = after w (Sent (token_request api_key tenant_uuid))
  /\ req_method (token_request api_key tenant_uuid) = lit "POST"
  /\ req_url (token_request api_key tenant_uuid)
     = lit "https://dev.insights.ibm.com/restapi/v1/tenants/" ++ tenant_uuid ++ lit "/token"
  /\ lookup (lit "x-api-key") (req_headers (token_request api_key tenant_uuid))
     = Some (VStr api_key)
  /\ req_body (token_request api_key tenant_uuid) = Some (lit "{}").
Proof.
  split; [|repeat split].
  exact (obtain_token_sent api_key tenant_uuid w).
Qed.

(** X13: a storage type that has no UTF-8 form makes the fetch fail with a
    [UnicodeEncodeError] before anything is sent. *)
Theorem unencodable_storage_type tenant_uuid token s (w : world) :
  s <> [] ->
  (forall octets, Utf8.encode s <> Ok octets) ->
  fetch_storage_systems tenant_uuid token (Some s) w
  = (w, Raise (Builtin UnicodeEncodeError)).
Proof.
  intros Hs Hbad. destruct s as [|c s]; [congruence|].
  unfold fetch_storage_systems, bind, lift, storage_systems_url, Url.urlencode.
  cbn [Url.urlencode_pairs]. rewrite quote_plus_storage_type. cbn [rbind].
  unfold Url.quote_plus.
  destruct (Utf8.encode (c :: s)) as [octets|e] eqn:E; [now destruct (Hbad octets)|].
  cbn [rbind]. now rewrite (encode_raises _ e E).
Qed.

Lemma quote_byte_chars (b : Z) :
  Url.is_byte b -> Forall quoted_char (Url.quote_byte b).
Proof.
  intros Hb. unfold Url.quote_byte, quoted_char, Url.is_byte in *.
  destruct (Url.always_safe b) eqn:Hsafe; [constructor; [now left | constructor]|].
  destruct (b =? 32); [constructor; [right; now left | constructor]|].
  assert (Hhex : forall d, 0 <= d < 16 -> Url.always_safe (Url.hex_digit d) = true).
  { intros d Hd. unfold Url.hex_digit, Url.always_safe.
    destruct (Z.ltb_spec d 10).
    - replace ((48 <=? 48 + d) && (48 + d <=? 57)) with true
        by (symmetry; apply andb_true_iff; split; apply Z.leb_le; lia).
      now rewrite !orb_true_r.
    - replace ((65 <=? 55 + d) && (55 + d <=? 90)) with true
        by (symmetry; apply andb_true_iff; split; apply Z.leb_le; lia).
      reflexivity. }
  constructor; [right; now right|].
  constructor; [left; apply Hhex; Z.div_mod_to_equations; lia|].
  constructor; [left; apply Hhex; Z.div_mod_to_equations; lia|].
  constructor.
Qed.

(** X14: the storage type cannot add a parameter to the query or reach
    another path: its quoted form is made of unreserved characters, [+] and
    [%] only, so that it holds no space, [#], [&], [/], [=] or [?]. *)
Theorem storage_type_cannot_inject tenant_uuid (s octets : str) :
  s <> [] ->
  Utf8.encode s = Ok octets ->
  exists quoted,
    storage_systems_url tenant_uuid (Some s)
    = Ok (API_BASE ++ STORAGE_SYSTEMS_PATH tenant_uuid ++ lit "?storage-type=" ++ quoted)
    /\ Forall quoted_char quoted
    /\ forall c, In c quoted -> ~ In c query_delimiters.
Proof.
  intros Hs Henc. exists (flat_map Url.quote_byte octets).
  assert (Hchars : Forall quoted_char (flat_map Url.quote_byte octets)).
  { pose proof (UrlFacts.encode_bytes s octets Henc) as Hbytes. clear Henc.
    induction Hbytes as [|b bs Hb _ IH]; [constructor|].
    cbn [flat_map]. apply Forall_app. split; [apply quote_byte_chars, Hb | exact IH]. }
  split; [|split; [exact Hchars|]].
  - destruct s as [|c s]; [congruence|].
    unfold storage_systems_url, Url.urlencode. cbn [Url.urlencode_pairs].
    rewrite quote_plus_storage_type. cbn [rbind].
    unfold Url.quote_plus. rewrite Henc. cbn [rbind join].
    rewrite <- ?app_assoc. reflexivity.
  - intros c Hc Hdel. rewrite Forall_forall in Hchars. specialize (Hchars c Hc).
    unfold query_delimiters in Hdel. cbn [In] in Hdel.
    destruct Hdel as [<-|[<-|[<-|[<-|[<-|[<-|[]]]]]]];
      destruct Hchars as [H|[H|H]]; discriminate H.
Qed.

End MoreTokenFacts.

(** ** The run: what it may do *)

Lemma written_app (a b : list event) : written (a ++ b) = written b ++ written a.
Proof.
  induction a as [|[l|p t|r] a IH]; cbn [app written]; rewrite ?app_nil_r, ?IH;
    try reflexivity.
  now rewrite app_assoc.
Qed.

Lemma requests_app (a b : list event) :
  requests (a ++ b) = (requests a + requests b)%nat.
Proof.
  induction a as [|[l|p t|r] a IH]; cbn [app requests Nat.add]; now rewrite ?IH.
Qed.

Lemma startswith_app (p s : str) : startswith p (p ++ s) = true.
Proof.
  induction p as [|c p IH]; [reflexivity|]. cbn [app startswith].
  now rewrite Z.eqb_refl, IH.
Qed.

Section Does.
Context {P : Platform}.
Variable q : event -> Prop.

Lemma does_pure {A} (r : result A) : does q 0 (lift r).
Proof.
  intros w. exists []. cbn. rewrite app_nil_r. repeat split; auto.
Qed.

Lemma does_ret {A} (a : A) : does q 0 (ret a).
Proof. exact (does_pure (Ok a)). Qed.

Lemma does_raise {A} (e : exn) : does q 0 (raise (A := A) e).
Proof. exact (does_pure (Raise e)). Qed.

Lemma does_print (line : str) : q (Printed line) -> does q 0 (print line).
Proof.
  intros Hq w. exists [Printed line]. cbn. repeat split; auto.
Qed.

Lemma does_write_text (path text : str) :
  q (Wrote path text) -> does q 0 (write_text path text).
Proof.
  intros Hq w. exists [Wrote path text]. cbn. repeat split; auto.
Qed.

Lemma does_when (cond : bool) (body : M unit) :
  (cond = true -> does q 0 body) -> does q 0 (when cond body).
Proof.
  destruct cond; cbn [when]; [auto|]. intros _. apply does_ret.
Qed.

Lemma does_more {A} (n n' : nat) (m : M A) :
  does q n m -> (n <= n')%nat -> does q n' m.
Proof.
  intros H Hn w. destruct (H w) as [events [Ht [Hf [Hq Hr]]]].
  exists events. repeat split; auto. lia.
Qed.

Lemma does_bind {A B} (n k : nat) (m : M A) (f : A -> M B) :
  does q n m -> (forall a, does q k (f a)) -> does q (n + k) (bind m f).
Proof.
  intros Hm Hf w. destruct (Hm w) as [e1 [Ht1 [Hf1 [Hq1 Hr1]]]].
  unfold bind. destruct (m w) as [w1 [a|e]]; cbn [fst] in *.
  - destruct (Hf a w1) as [e2 [Ht2 [Hf2 [Hq2 Hr2]]]].
    exists (e1 ++ e2). rewrite Ht2, Ht1, Hf2, Hf1, written_app, requests_app.
    rewrite !app_assoc. repeat split; auto.
    + apply Forall_app. auto.
    + lia.
  - exists e1. repeat split; auto. lia.
Qed.

Lemma does_read_creds (path : str) : does q 0 (read_creds path).
Proof.
  intros w. exists []. rewrite read_creds_world. cbn. rewrite app_nil_r.
  repeat split; auto.
Qed.

Lemma does_request_json url method headers data timeout :
  (forall body, q (Sent (make_request url method headers body timeout))) ->
  does q 1 (request_json url method headers data timeout).
Proof.
  intros Hq w. destruct (encode_body data) as [body|e] eqn:Hbody.
  - exists [Sent (make_request url method headers body timeout)].
    rewrite (request_json_sent _ _ _ _ _ _ _ Hbody). cbn.
    repeat split; auto.
  - exists []. unfold request_json, bind, lift. rewrite Hbody. cbn.
    rewrite app_nil_r. repeat split; auto.
Qed.

End Does.

Section MoreRunFacts.
Context {P : Platform}.

Lemma storage_systems_url_base tenant_uuid storage_type url :
  storage_systems_url tenant_uuid storage_type = Ok url ->
  startswith API_BASE url = true.
Proof.
  unfold storage_systems_url.
  destruct (match match storage_type with
                  | Some (c :: s) => [(lit "storage-type", c :: s)]
                  | _ => []
                  end with
            | [] => Ok []
            | _ :: _ => _
            end) as [query|e]; cbn [rbind]; [|discriminate].
  intros [= <-].
  exact (startswith_app API_BASE (STORAGE_SYSTEMS_PATH tenant_uuid ++ query)).
Qed.

Lemma allowed_print (args : Namespace) (line : str) :
  negb (quiet args) = true -> allowed args (Printed line).
Proof. intros H. left. now destruct (quiet args). Qed.

Lemma does_obtain_token args api_key tenant_uuid :
  does (allowed args) 1 (obtain_token api_key tenant_uuid).
Proof.
  unfold obtain_token.
  apply (does_bind (allowed args) 1 0).
  - apply does_request_json. intros body. split; [apply startswith_app|reflexivity].
  - intros response. apply does_pure.
Qed.

Lemma does_fetch args tenant_uuid token storage_type :
  does (allowed args) 1 (fetch_storage_systems tenant_uuid token storage_type).
Proof.
  unfold fetch_storage_systems, bind, lift.
  destruct (storage_systems_url tenant_uuid storage_type) as [url|e] eqn:Hurl.
  - apply does_request_json. intros body.
    split; [exact (storage_systems_url_base _ _ _ Hurl)|reflexivity].
  - apply (does_more _ 0 1); [exact (does_raise _ e)|lia].
Qed.

Lemma does_write_token args token : does (allowed args) 0 (write_token args token).
Proof.
  unfold write_token. destruct (token_out args) as [path|] eqn:Hpath; [|apply does_ret].
  apply (does_bind _ 0 0); [apply does_pure|]. intros text.
  apply (does_bind _ 0 0).
  - apply does_write_text. cbn. rewrite Hpath. now left.
  - intros _. apply does_when. intros H. apply does_print, allowed_print, H.
Qed.

Lemma does_report_listing args payload systems storage_type :
  does (allowed args) 0 (report_listing args payload systems storage_type).
Proof.
  unfold report_listing. destruct (quiet args) eqn:Hquiet; [apply does_ret|].
  apply (does_bind _ 0 0); [apply does_pure|]. intros reported.
  apply (does_bind _ 0 0); [apply does_pure|]. intros n.
  apply does_print. now left.
Qed.

Lemma does_write_json args payload : does (allowed args) 0 (write_json args payload).
Proof.
  unfold write_json. destruct (json_out args) as [path|] eqn:Hpath; [|apply does_ret].
  apply (does_bind _ 0 0).
  - apply does_write_text. cbn. rewrite Hpath. right. now left.
  - intros _. apply does_when. intros H. apply does_print, allowed_print, H.
Qed.

Lemma does_write_table args systems : does (allowed args) 0 (write_table args systems).
Proof.
  unfold write_table.
  destruct (table args || match table_out args with Some _ => true | None => false end);
    [|apply does_ret].
  apply (does_bind _ 0 0); [apply does_pure|]. intros items.
  apply (does_bind _ 0 0); [apply does_pure|]. intros table_text.
  apply (does_bind _ 0 0).
  - apply does_when. intros H. apply does_print. now right.
  - intros _. destruct (table_out args) as [path|] eqn:Hpath; [|apply does_ret].
    apply (does_bind _ 0 0).
    + apply does_write_text. cbn. rewrite Hpath. right. now right.
    + intros _. apply does_when. intros H. apply does_print, allowed_print, H.
Qed.

(** Everything a run does is allowed by its command line, and it sends
    at most two requests. *)
Lemma main_does (args : Namespace) : does (allowed args) 2 (main args).
Proof.
  unfold main.
  apply (does_bind _ 0 2); [apply does_read_creds|]. intros [api_key tenant_uuid].
  apply (does_bind _ 0 2).
  { apply does_when. intros H. apply does_print, allowed_print, H. }
  intros _.
  apply (does_bind _ 1 1); [apply does_obtain_token|]. intros [token expiration_ms].
  apply (does_bind _ 0 1); [apply does_write_token|]. intros _.
  apply (does_bind _ 0 1).
  { apply does_when. intros H. apply does_print, allowed_print, H. }
  intros _.
  apply (does_bind _ 1 0); [apply does_fetch|]. intros payload.
  apply (does_bind _ 0 0); [apply does_pure|]. intros systems.
  apply (does_bind _ 0 0); [apply does_report_listing|]. intros _.
  apply (does_bind _ 0 0); [apply does_write_json|]. intros _.
  apply (does_bind _ 0 0); [apply does_write_table|]. intros _.
  apply does_ret.
Qed.

End MoreRunFacts.

Lemma in_written (path text : str) (events : list event) :
  In (path, text) (written events) -> In (Wrote path text) events.
Proof.
  induction events as [|[l|p t|r] events IH]; cbn [written]; [tauto| | |].
  - intros H. right. auto.
  - intros H. apply in_app_or in H. destruct H as [H|[[= -> ->]|[]]].
    + right. auto.
    + now left.
  - intros H. right. auto.
Qed.

Lemma find_file_skip (path : str) (added fs : list (str * str)) :
  (forall p text, In (p, text) added -> p <> path) ->
  find_file path (added ++ fs) = find_file path fs.
Proof.
  induction added as [|[p text] added IH]; intros H; [reflexivity|].
  cbn [app find_file]. rewrite str_eqb_neq.
  - apply IH. intros p' text' Hin. apply (H p' text'). now right.
  - intros ->. apply (H p text); [now left|reflexivity].
Qed.

Lemma returns_bind {A B} (R : B -> Prop) (m : M A) (f : A -> M B) :
  (forall a, returns R (f a)) -> returns R (bind m f).
Proof.
  intros Hf w w' b. unfold bind. destruct (m w) as [w1 [a|e]]; [apply Hf|discriminate].
Qed.

Section RunClaims.
Context {P : Platform}.

(** X21: a quiet run that is not asked to print the table prints nothing. *)
Theorem quiet_run_prints_nothing (args : Namespace) (w : world) (line : str) :
  quiet args = true -> table args = false ->
  In (Printed line) (trace (fst (main args w))) -> In (Printed line) (trace w).
Proof.
  intros Hquiet Htable Hin.
  destruct (main_does args w) as [events [Htrace [_ [Hallowed _]]]].
  rewrite Htrace in Hin. apply in_app_or in Hin. destruct Hin as [Hin|Hin]; [exact Hin|].
  rewrite Forall_forall in Hallowed. specialize (Hallowed _ Hin). cbn in Hallowed.
  destruct Hallowed; congruence.
Qed.

(** X22: a run leaves every file as it is but those named by its three output
    options; with none of these options it writes no file at all. *)
Theorem other_files_untouched (args : Namespace) (w : world) :
  (forall path,
      token_out args <> Some path -> json_out args <> Some path ->
      table_out args <> Some path ->
      find_file path (files (fst (main args w))) = find_file path (files w))
  /\ (token_out args = None -> json_out args = None -> table_out args = None ->
      files (fst (main args w)) = files w).
Proof.
  destruct (main_does args w) as [events [_ [Hfiles [Hallowed _]]]].
  rewrite Hfiles. rewrite Forall_forall in Hallowed. split.
  - intros path Htoken Hjson Htable. apply find_file_skip.
    intros p text Hin ->. apply in_written in Hin.
    specialize (Hallowed _ Hin). cbn in Hallowed.
    destruct Hallowed as [H|[H|H]]; congruence.
  - intros Htoken Hjson Htable.
    destruct (written events) as [|[p text] rest] eqn:E; [reflexivity|].
    assert (Hin : In (Wrote p text) events)
      by (apply in_written; rewrite E; now left).
    specialize (Hallowed _ Hin). cbn in Hallowed.
    destruct Hallowed as [H|[H|H]]; congruence.
Qed.

(** X23: a run opens at most two requests, and each of them goes below
    the base of the API, with the header [Accept: application/json] added
    before any other. *)
Theorem at_most_two_requests (args : Namespace) (w : world) :
  exists events,
    trace (fst (main args w)) = trace w ++ events
    /\ (requests events <= 2)%nat
    /\ forall r,
         In (Sent r) events ->
         startswith (lit "https://dev.insights.ibm.com") (req_url r) = true
         /\ hd_error (req_headers r) = Some (lit "Accept", VStr (lit "application/json")).
Proof.
  destruct (main_does args w) as [events [Htrace [_ [Hallowed Hrequests]]]].
  exists events. repeat split; auto;
    rewrite Forall_forall in Hallowed; apply (Hallowed _ H).
Qed.

(** X24: the only value a run returns is 0. *)
Theorem main_returns_zero (args : Namespace) (w w' : world) (code : Z) :
  main args w = (w', Ok code) -> code = 0.
Proof.
  revert w w' code. change (returns (fun code => code = 0) (main args)).
  unfold main.
  apply returns_bind. intros [api_key tenant_uuid].
  apply returns_bind. intros _.
  apply returns_bind. intros [token expiration_ms].
  apply returns_bind. intros _.
  apply returns_bind. intros _. cbv zeta.
  apply returns_bind. intros payload.
  apply returns_bind. intros systems.
  apply returns_bind. intros _.
  apply returns_bind. intros _.
  apply returns_bind. intros _.
  intros w w' code [= _ <-]. reflexivity.
Qed.

End RunClaims.

(** ** The run: where it stops *)

Section RunStops.
Context {P : Platform}.

Lemma read_creds_result (path : str) (w : world) :
  read_creds path w = (w, snd (read_creds path w)).
Proof.
  pose proof (read_creds_world path w) as H.
  destruct (read_creds path w) as [w0 r]. cbn [fst snd] in *. now subst.
Qed.

(** X25: when the credentials cannot be read, the run fails with the same
    exception and has done nothing: no line, no file, no request. *)
Theorem creds_failure_stops_run (args : Namespace) (w : world) (e : exn) :
  snd (read_creds (creds args) w) = Raise e ->
  main args w = (w, Raise e).
Proof.
  intros H. unfold main. unfold bind at 1.
  rewrite read_creds_result, H. reflexivity.
Qed.

(** X26: when the token of the response is not a string and the token is to be
    saved, the run fails with a [TypeError] right after the token exchange:
    no file is written and the listing is not fetched. *)
Theorem token_must_be_text (args : Namespace) (w w1 : world)
    (api_key tenant_uuid path : str) (token : value) (expiration_ms : Z) :
  snd (read_creds (creds args) w) = Ok (api_key, tenant_uuid) ->
  obtain_token api_key tenant_uuid (extended w (tenant_line args tenant_uuid))
  = (w1, Ok (token, expiration_ms)) ->
  token_out args = Some path ->
  (forall s, token <> VStr s) ->
  main args w = (w1, Raise (Builtin TypeError))
  /\ w1 = extended w (tenant_line args tenant_uuid
                      ++ [Sent (token_request api_key tenant_uuid)]).
Proof.
  intros Hcreds Htoken Hpath Htext. split.
  - unfold main. unfold bind at 1. rewrite read_creds_result, Hcreds.
    unfold bind at 1. rewrite when_print.
    change (if quiet args then [] else [Printed (lit "Using tenant: " ++ tenant_uuid)])
      with (tenant_line args tenant_uuid).
    unfold bind at 1. rewrite Htoken.
    unfold bind at 1. unfold write_token. rewrite Hpath.
    unfold bind at 1. unfold lift.
    destruct token; try reflexivity. now destruct (Htext s).
  - pose proof (obtain_token_sent api_key tenant_uuid
                  (extended w (tenant_line args tenant_uuid))) as Hsent.
    rewrite Htoken in Hsent. cbn [fst] in Hsent. subst w1.
    now rewrite extended_app.
Qed.

(** X27: when the listing that comes back is not a JSON object, the run fails
    with an [AttributeError] right after the fetch: nothing is reported,
    no payload and no table is written. *)
Theorem payload_must_be_object (args : Namespace) (w w1 w2 w3 : world)
    (api_key tenant_uuid : str) (token payload : value) (expiration_ms : Z) :
  snd (read_creds (creds args) w) = Ok (api_key, tenant_uuid) ->
  obtain_token api_key tenant_uuid (extended w (tenant_line args tenant_uuid))
  = (w1, Ok (token, expiration_ms)) ->
  write_token args token w1 = (w2, Ok tt) ->
  fetch_storage_systems tenant_uuid token (storage_type_of args)
    (extended w2 (expiration_line args expiration_ms)) = (w3, Ok payload) ->
  is_record payload = false ->
  main args w = (w3, Raise (Builtin AttributeError)).
Proof.
  intros Hcreds Htoken Hwrite Hfetch Hpayload.
  unfold main. unfold bind at 1. rewrite read_creds_result, Hcreds.
  unfold bind at 1. rewrite when_print.
  change (if quiet args then [] else [Printed (lit "Using tenant: " ++ tenant_uuid)])
    with (tenant_line args tenant_uuid).
  unfold bind at 1. rewrite Htoken.
  unfold bind at 1. rewrite Hwrite. unfold bind at 1. rewrite when_print.
  fold (expiration_line args expiration_ms).
  unfold bind at 1.
  match goal with
  | |- context [fetch_storage_systems ?a ?b ?c ?d] =>
      change (fetch_storage_systems a b c d)
        with (fetch_storage_systems tenant_uuid token (storage_type_of args)
                (extended w2 (expiration_line args expiration_ms)))
  end.
  rewrite Hfetch. unfold bind at 1. unfold lift.
  destruct payload; try reflexivity. discriminate Hpayload.
Qed.

End RunStops.

(** ** Credentials: layout of the file *)

Lemma splitlines_from_step (cur : str) (c : Z) (s : str) :
  splitlines_from cur (c :: s)
  = if is_linebreak c then
      if (c =? 13) && match s with
                      | d :: _ => d =? 10
                      | [] => false
                      end
      then rev cur :: splitlines_from [] (tl s)
      else rev cur :: splitlines_from [] s
    else splitlines_from (c :: cur) s.
Proof.
  cbn [splitlines_from]. destruct (is_linebreak c); [|reflexivity].
  destruct c as [|p|p]; try reflexivity.
  do 4 (destruct p as [p|p|]; try reflexivity).
  destruct s as [|d s]; [reflexivity|].
  destruct d as [|p|p]; try reflexivity.
  do 4 (destruct p as [p|p|]; try reflexivity).
Qed.

Lemma splitlines_from_app (b : str) (n : nat) :
  forall a cur,
    (List.length a <= n)%nat ->
    (a = [] -> cur = []) ->
    (a <> [] -> last a 0 = 10) ->
    splitlines_from cur (a ++ b) = splitlines_from cur a ++ splitlines_from [] b.
Proof.
  induction n as [|n IH]; intros a cur Hlen Hnil Hlast.
  - destruct a; [|cbn in Hlen; lia]. now rewrite (Hnil eq_refl).
  - destruct a as [|c a]; [now rewrite (Hnil eq_refl)|].
    cbn [List.length] in Hlen.
    assert (Hlast' : a <> [] -> last a 0 = 10).
    { intros Ha. rewrite <- (Hlast ltac:(discriminate)). destruct a; [congruence|reflexivity]. }
    cbn [app]. rewrite !splitlines_from_step.
    destruct (is_linebreak c) eqn:Hc.
    + destruct a as [|d a].
      * (* the line feed that ends [a] *)
        assert (c = 10) by (apply (Hlast ltac:(discriminate))). subst c.
        cbn [app andb Z.eqb]. reflexivity.
      * cbn [app tl].
        destruct ((c =? 13) && (d =? 10)).
        -- cbn [app]. f_equal. apply IH.
           ++ cbn [List.length] in Hlen. lia.
           ++ reflexivity.
           ++ intros Ha. rewrite <- (Hlast' ltac:(discriminate)).
              destruct a; [congruence|reflexivity].
        -- cbn [app]. f_equal.
           change (d :: a ++ b) with ((d :: a) ++ b). apply IH.
           ++ lia.
           ++ reflexivity.
           ++ exact Hlast'.
    + apply IH.
      * lia.
      * intros ->. specialize (Hlast ltac:(discriminate)). cbn in Hlast. subst c.
        discriminate Hc.
      * exact Hlast'.
Qed.

Lemma splitlines_app (a b : str) :
  whole_lines a -> splitlines (a ++ b) = splitlines a ++ splitlines b.
Proof.
  intros Ha. unfold splitlines. apply (splitlines_from_app b (List.length a)).
  - lia.
  - reflexivity.
  - intros Hne. destruct Ha; [contradiction|assumption].
Qed.

Lemma blank_spaces (p : str) : blank p -> Forall (fun c => isspace c = true) p.
Proof. intros H. eapply Forall_impl; [|exact H]. now intros c [Hc _]. Qed.

Lemma blank_one_line (p : str) : blank p -> Forall (fun c => is_linebreak c = false) p.
Proof. intros H. eapply Forall_impl; [|exact H]. now intros c [_ Hc]. Qed.

Lemma blank_no_colon (p : str) : blank p -> contains_char 58 p = false.
Proof.
  induction 1 as [|c p [Hc _] _ IH]; [reflexivity|].
  unfold contains_char in *. cbn [existsb]. rewrite IH, orb_false_r.
  destruct (Z.eqb_spec 58 c) as [<-|]; [discriminate Hc|reflexivity].
Qed.

(** An ASCII letter. *)
Lemma letter_facts (c : Z) :
  (65 <= c <= 90) \/ (97 <= c <= 122) ->
  isspace c = false /\ is_linebreak c = false /\ (c =? 58) = false /\ (c =? 35) = false.
Proof.
  intros H. unfold isspace, is_linebreak.
  repeat match goal with
         | |- context [?a <=? ?b] => destruct (Z.leb_spec a b); try lia
         | |- context [?a =? ?b] => destruct (Z.eqb_spec a b); try lia
         end; cbn; auto.
Qed.

Lemma spelling_letters (name key : str) :
  Forall (fun c => 97 <= c <= 122) name ->
  spelling name key ->
  Forall (fun c => (65 <= c <= 90) \/ (97 <= c <= 122)) key.
Proof.
  intros Hname [_ Hmap]. revert name Hname Hmap.
  induction key as [|c key IH]; intros name Hname Hmap; [constructor|].
  destruct name as [|x name]; [discriminate Hmap|].
  cbn [map] in Hmap. injection Hmap as Hc Hrest.
  inversion Hname as [|? ? Hx Hname']. subst.
  constructor; [|exact (IH _ Hname' eq_refl)].
  unfold ascii_lower in Hx.
  destruct (Z.leb_spec 65 c); destruct (Z.leb_spec c 90); cbn [andb] in Hx; lia.
Qed.

Section CredentialLayout.
Context {P : Platform}.

Lemma entries_app (a b : str) :
  whole_lines a -> entries (a ++ b) = entries a ++ entries b.
Proof.
  intros Ha. unfold entries. now rewrite splitlines_app, flat_map_app.
Qed.

Lemma entry_of_padded_line (name p1 key p2 p3 value p4 : str) :
  name <> [] -> Forall (fun c => 97 <= c <= 122) name ->
  spelling name key -> clean value ->
  blank p1 -> blank p2 -> blank p3 -> blank p4 ->
  entry_of_line (padded_line p1 key p2 p3 value p4) = Some (name, value)
  /\ Forall (fun c => is_linebreak c = false) (padded_line p1 key p2 p3 value p4).
Proof.
  intros Hname Hlower Hkey [Hv [Hvline [Hvhd Hvlast]]] H1 H2 H3 H4.
  pose proof (spelling_letters name key Hlower Hkey) as Hletters.
  destruct Hkey as [Hascii Hmap].
  assert (Hkne : key <> []) by (intros ->; cbn in Hmap; congruence).
  assert (Hkhd : isspace (hd 0 key) = false).
  { destruct key as [|c key]; [congruence|]. inversion Hletters; subst.
    now apply letter_facts. }
  assert (Hklast : isspace (last key 0) = false).
  { assert (Hin : In (last key 0) key).
    { destruct key as [|c key]; [congruence|].
      rewrite (app_removelast_last 0 (l := c :: key)) at 2 by discriminate.
      apply in_or_app. right. now left. }
    rewrite Forall_forall in Hletters. now apply letter_facts, Hletters. }
  assert (Hkcolon : contains_char 58 key = false).
  { unfold contains_char. clear -Hletters.
    induction Hletters as [|c key Hc _ IH]; [reflexivity|].
    cbn [existsb]. rewrite IH, orb_false_r, Z.eqb_sym. now apply letter_facts. }
  assert (Hkhash : startswith (lit "#") key = false).
  { destruct key as [|c key]; [congruence|]. inversion Hletters; subst.
    cbn [lit list_ascii_of_string map startswith]. rewrite Z.eqb_sym.
    replace (c =? Z.of_N (N_of_ascii "#")) with false; [reflexivity|].
    symmetry. now apply letter_facts. }
  split.
  - unfold entry_of_line, padded_line. cbv zeta. unfold strip.
    set (core := key ++ p2 ++ 58 :: p3 ++ value).
    assert (Hcore : strip_by isspace (p1 ++ key ++ p2 ++ 58 :: p3 ++ value ++ p4) = core).
    { replace (p1 ++ key ++ p2 ++ 58 :: p3 ++ value ++ p4) with (p1 ++ core ++ p4)
        by (unfold core; now rewrite <- !app_assoc, <- app_comm_cons, <- !app_assoc).
      apply strip_by_padded; try (apply blank_spaces; assumption).
      - unfold core. destruct key; [congruence|discriminate].
      - unfold core. destruct key; [congruence|exact Hkhd].
      - replace core with ((key ++ p2 ++ 58 :: p3) ++ value)
          by (unfold core; now rewrite <- !app_assoc).
        now rewrite last_prefix. }
    rewrite Hcore.
    assert (Hsplit : split_once 58 core = (key ++ p2, p3 ++ value)).
    { unfold core. rewrite app_assoc.
      assert (Hno : contains_char 58 (key ++ p2) = false).
      { pose proof (blank_no_colon p2 H2) as Hp2.
        unfold contains_char in *. rewrite existsb_app.
        now rewrite Hkcolon, Hp2. }
      revert Hno. generalize (key ++ p2) as front. clear.
      induction front as [|c front IH]; intros Hno; [reflexivity|].
      cbn [app split_once]. unfold contains_char in *. cbn [existsb] in Hno.
      apply orb_false_iff in Hno. destruct Hno as [Hc Hrest].
      rewrite Z.eqb_sym, Hc, (IH Hrest). reflexivity. }
    assert (Hstart : startswith (lit "#") core = false).
    { unfold core. destruct key as [|c key]; [congruence|exact Hkhash]. }
    assert (Hcontains : contains_char 58 core = true).
    { unfold core, contains_char. rewrite !existsb_app. cbn [existsb].
      rewrite Z.eqb_refl. now rewrite !orb_true_r. }
    destruct core as [|c0 core0] eqn:E;
      [unfold core in E; destruct key; [congruence|discriminate E]|].
    rewrite Hstart, Hcontains. cbn [negb orb]. rewrite Hsplit.
    replace (strip_by isspace (key ++ p2)) with key
      by (symmetry; apply (strip_by_padded isspace [] key p2);
          try (apply blank_spaces; assumption); auto).
    replace (strip_by isspace (p3 ++ value)) with value
      by (symmetry; rewrite <- (app_nil_r value) at 1;
          apply (strip_by_padded isspace p3 value []);
          try (apply blank_spaces; assumption); auto).
    unfold lower. now rewrite Hascii, Hmap.
  - unfold padded_line. repeat (apply Forall_app; split);
      try (apply blank_one_line; assumption); try assumption.
    + eapply Forall_impl; [|exact Hletters]. intros c Hc. now apply letter_facts.
    + change (58 :: p3 ++ value ++ p4) with ([58] ++ p3 ++ value ++ p4).
      repeat (apply Forall_app; split);
        try (apply blank_one_line; assumption); try assumption.
      now constructor.
Qed.

(** X1: a file that does not exist makes [read_creds] fail with the
    [FileNotFoundError] that names its path. *)
Theorem missing_creds_file (path : str) (w : world) :
  find_file path (files w) = None ->
  read_creds path w
  = (w, Raise (FileNotFoundError (lit "Credential file not found: " ++ path))).
Proof.
  intros H. unfold read_creds, bind, exists_, raise. now rewrite H.
Qed.

(** X3: the keys are read whatever their case, and the white space around
    the keys and around the values does not count. *)
Theorem read_creds_tolerates_layout (path : str) (w : world)
    (apikey_ tenantid_ api_key tenant_id p1 p2 p3 p4 p5 p6 p7 p8 : str) :
  spelling (lit "apikey") apikey_ -> spelling (lit "tenantid") tenantid_ ->
  clean api_key -> clean tenant_id ->
  Forall blank [p1; p2; p3; p4; p5; p6; p7; p8] ->
  find_file path (files w)
  = Some (padded_line p1 apikey_ p2 p3 api_key p4
          ++ 10 :: padded_line p5 tenantid_ p6 p7 tenant_id p8 ++ [10]) ->
  read_creds path w = (w, Ok (api_key, tenant_id)).
Proof.
  intros Ha Ht Hk Hid Hblank Hfile. rewrite (read_creds_run _ _ _ Hfile).
  repeat match goal with
         | H : Forall blank (_ :: _) |- _ => inversion H; subst; clear H
         end.
  destruct (entry_of_padded_line (lit "apikey") p1 apikey_ p2 p3 api_key p4)
    as [Hentry1 Hline1]; auto; try discriminate;
    try (repeat constructor; cbn; lia).
  destruct (entry_of_padded_line (lit "tenantid") p5 tenantid_ p6 p7 tenant_id p8)
    as [Hentry2 Hline2]; auto; try discriminate;
    try (repeat constructor; cbn; lia).
  assert (Hentries : entries (padded_line p1 apikey_ p2 p3 api_key p4
                              ++ 10 :: padded_line p5 tenantid_ p6 p7 tenant_id p8 ++ [10])
                     = [(lit "apikey", api_key); (lit "tenantid", tenant_id)]).
  { unfold entries, splitlines.
    rewrite splitlines_from_line by exact Hline1.
    change (padded_line p5 tenantid_ p6 p7 tenant_id p8 ++ [10])
      with (padded_line p5 tenantid_ p6 p7 tenant_id p8 ++ 10 :: []).
    rewrite splitlines_from_line by exact Hline2.
    cbn [rev app flat_map splitlines_from]. now rewrite Hentry1, Hentry2. }
  unfold entry. rewrite Hentries.
  destruct Hk as [Hk _], Hid as [Hid _].
  destruct api_key; [congruence|]. destruct tenant_id; [congruence|].
  reflexivity.
Qed.

(** X4: an [apikey] line added at the end of a file replaces the API key of
    the file, whether the file had one or not, and leaves the tenant id. *)
Theorem later_entry_wins (path text api_key tenant_id : str) (w : world) :
  whole_lines text -> clean api_key ->
  entry (lit "tenantid") text = Some tenant_id -> tenant_id <> [] ->
  find_file path (files w) = Some (text ++ lit "apikey:" ++ api_key ++ [10]) ->
  read_creds path w = (w, Ok (api_key, tenant_id)).
Proof.
  intros Htext Hk Ht Hne Hfile. rewrite (read_creds_run _ _ _ Hfile).
  assert (Hlast : entries (lit "apikey:" ++ api_key ++ [10]) = [(lit "apikey", api_key)]).
  { unfold entries, splitlines.
    change (lit "apikey:" ++ api_key ++ [10])
      with ((lit "apikey" ++ 58 :: api_key) ++ 10 :: []).
    rewrite splitlines_from_line.
    - cbn [rev app flat_map splitlines_from].
      rewrite entry_of_clean_line by (try assumption; try reflexivity; discriminate).
      reflexivity.
    - destruct Hk as [_ [Hline _]]. apply Forall_app. split; [repeat constructor|].
      constructor; [reflexivity|exact Hline]. }
  unfold entry in *. rewrite entries_app, Hlast, !last_value_app by exact Htext.
  rewrite Ht. cbn [last_value str_eqb lit list_ascii_of_string map].
  cbn. destruct Hk as [Hk _].
  destruct api_key; [congruence|]. destruct tenant_id; [congruence|]. reflexivity.
Qed.

(** X5: a blank line, a comment or a line without a colon, anywhere between
    two lines of the file, changes nothing to what [read_creds] returns. *)
Theorem skipped_line_changes_nothing (path before line rest : str) (w w' : world) :
  whole_lines before ->
  Forall (fun c => is_linebreak c = false) line -> skipped line ->
  find_file path (files w) = Some (before ++ line ++ 10 :: rest) ->
  find_file path (files w') = Some (before ++ rest) ->
  snd (read_creds path w) = snd (read_creds path w').
Proof.
  intros Hbefore Hline Hskip Hfile Hfile'.
  rewrite (read_creds_run _ _ _ Hfile), (read_creds_run _ _ _ Hfile').
  assert (Hnone : entry_of_line line = None).
  { unfold entry_of_line. cbv zeta.
    destruct Hskip as [H|[H|H]].
    - now rewrite H.
    - destruct (strip line); [reflexivity|]. now rewrite H.
    - destruct (strip line); [reflexivity|]. rewrite H. cbn [negb]. now rewrite orb_true_r. }
  assert (Hentries : entries (before ++ line ++ 10 :: rest) = entries (before ++ rest)).
  { rewrite (entries_app before (line ++ 10 :: rest) Hbefore),
            (entries_app before rest Hbefore). f_equal.
    unfold entries, splitlines. rewrite splitlines_from_line by exact Hline.
    cbn [rev app flat_map]. now rewrite Hnone. }
  unfold entry. rewrite Hentries.
  destruct (last_value (lit "apikey") (entries (before ++ rest))) as [[|k0 k]|],
           (last_value (lit "tenantid") (entries (before ++ rest))) as [[|t0 t]|];
    reflexivity.
Qed.

End CredentialLayout.

(** ** Credentials: any well-formed file *)

Lemma in_strip_by (sp : Z -> bool) (c : Z) (s : str) :
  In c (strip_by sp s) -> In c s.
Proof.
  intros H. destruct (strip_by_split sp s) as [a [b [Hs _]]].
  rewrite Hs. apply in_or_app. right. apply in_or_app. now left.
Qed.

Lemma contains_char_strip (sp : Z -> bool) (c : Z) (s : str) :
  contains_char c s = false -> contains_char c (strip_by sp s) = false.
Proof.
  unfold contains_char. intros H.
  destruct (existsb (Z.eqb c) (strip_by sp s)) eqn:E; [|reflexivity].
  apply existsb_exists in E. destruct E as [x [Hx Hc]].
  rewrite <- H. symmetry. apply existsb_exists. exists x.
  split; [now apply (in_strip_by sp)|exact Hc].
Qed.

Lemma lstrip_by_keeps_last (sp : Z -> bool) (c : Z) (s : str) :
  sp c = false -> exists t, lstrip_by sp (s ++ [c]) = t ++ [c].
Proof.
  intros Hc. induction s as [|x s [t IH]]; cbn [app lstrip_by].
  - rewrite Hc. now exists [].
  - destruct (sp x); [now exists t|]. now exists (x :: s).
Qed.

Lemma strip_by_first (sp : Z -> bool) (p : str) (c : Z) (s : str) :
  Forall (fun x => sp x = true) p -> sp c = false ->
  exists t, strip_by sp (p ++ c :: s) = c :: t.
Proof.
  intros Hp Hc. unfold strip_by, rstrip_by.
  rewrite (lstrip_by_blank sp p _ Hp). cbn [lstrip_by]. rewrite Hc.
  cbn [rev]. destruct (lstrip_by_keeps_last sp c (rev s) Hc) as [t ->].
  exists (rev t). now rewrite rev_app_distr.
Qed.

Section CredentialFile.
Context {P : Platform}.

Lemma entry_of_plain (text : str) :
  contains_char 58 text = false -> entry_of_line text = None.
Proof.
  intros H. unfold entry_of_line. cbv zeta. unfold strip.
  pose proof (contains_char_strip isspace 58 text H) as Hs.
  destruct (strip_by isspace text); [reflexivity|].
  rewrite Hs. cbn [negb]. now rewrite orb_true_r.
Qed.

Lemma entry_of_comment (p1 text : str) :
  blank p1 -> entry_of_line (p1 ++ 35 :: text) = None.
Proof.
  intros H1. unfold entry_of_line. cbv zeta. unfold strip.
  destruct (strip_by_first isspace p1 35 text (blank_spaces p1 H1) eq_refl) as [t ->].
  reflexivity.
Qed.

Lemma entry_of_core (p1 key p2 q trail value : str) :
  blank p1 -> blank p2 -> blank trail -> key_name key ->
  isspace (last (58 :: q) 0) = false ->
  strip q = value ->
  entry_of_line (p1 ++ key ++ p2 ++ 58 :: q ++ trail) = Some (map ascii_lower key, value).
Proof.
  intros H1 H2 Ht [Hkne [Hascii [Hkcolon [Hkline [Hkhd [Hklast Hkhash]]]]]] Hlast Hq.
  unfold entry_of_line. cbv zeta. unfold strip in *.
  set (core := key ++ p2 ++ 58 :: q).
  assert (Hcore : strip_by isspace (p1 ++ key ++ p2 ++ 58 :: q ++ trail) = core).
  { replace (p1 ++ key ++ p2 ++ 58 :: q ++ trail) with (p1 ++ core ++ trail)
      by (unfold core; now rewrite <- !app_assoc, <- app_comm_cons).
    apply strip_by_padded; try (apply blank_spaces; assumption).
    - unfold core. destruct key; [congruence|discriminate].
    - unfold core. destruct key; [congruence|exact Hkhd].
    - unfold core. rewrite app_assoc, last_app_cons. exact Hlast. }
  rewrite Hcore.
  assert (Hsplit : split_once 58 core = (key ++ p2, q)).
  { unfold core. rewrite app_assoc.
    assert (Hno : contains_char 58 (key ++ p2) = false).
    { pose proof (blank_no_colon p2 H2) as Hp2.
      unfold contains_char in *. rewrite existsb_app.
      now rewrite Hkcolon, Hp2. }
    revert Hno. generalize (key ++ p2) as front. clear.
    induction front as [|c front IH]; intros Hno; [reflexivity|].
    cbn [app split_once]. unfold contains_char in *. cbn [existsb] in Hno.
    apply orb_false_iff in Hno. destruct Hno as [Hc Hrest].
    rewrite Z.eqb_sym, Hc, (IH Hrest). reflexivity. }
  assert (Hstart : startswith (lit "#") core = false).
  { unfold core. destruct key as [|c key]; [congruence|].
    cbn [hd] in Hkhash. change (lit "#") with [35]. cbn [app startswith].
    apply Z.eqb_neq in Hkhash. now rewrite Z.eqb_sym, Hkhash. }
  assert (Hcontains : contains_char 58 core = true).
  { unfold core, contains_char. rewrite !existsb_app. cbn [existsb].
    rewrite Z.eqb_refl. now rewrite !orb_true_r. }
  destruct core as [|c0 core0] eqn:E;
    [unfold core in E; destruct key; [congruence|discriminate E]|].
  rewrite Hstart, Hcontains. cbn [negb orb]. rewrite Hsplit.
  replace (strip_by isspace (key ++ p2)) with key
    by (symmetry; apply (strip_by_padded isspace [] key p2);
        try (apply blank_spaces; assumption); auto).
  rewrite Hq. unfold lower. now rewrite Hascii.
Qed.

Lemma entry_of_setting (p1 key p2 p3 value p4 : str) :
  well_formed_line (Setting p1 key p2 p3 value p4) ->
  entry_of_line (padded_line p1 key p2 p3 value p4) = Some (map ascii_lower key, value).
Proof.
  intros [H1 [H2 [H3 [H4 [Hkey [->|Hvalue]]]]]]; unfold padded_line.
  - rewrite app_nil_l.
    change (58 :: p3 ++ p4) with (58 :: [] ++ (p3 ++ p4)).
    apply entry_of_core; auto.
    apply Forall_app. now split.
  - destruct Hvalue as [Hv [Hvline [Hvhd Hvlast]]].
    rewrite (app_assoc p3 value p4).
    apply entry_of_core; auto.
    + change (58 :: p3 ++ value) with ((58 :: p3) ++ value).
      now rewrite last_prefix.
    + rewrite <- (app_nil_r value) at 1.
      apply (strip_by_padded isspace p3 value []);
        try (apply blank_spaces; assumption); auto.
Qed.

Lemma line_text_one_line (l : cred_line) :
  well_formed_line l -> Forall (fun c => is_linebreak c = false) (line_text l).
Proof.
  destruct l as [p1 key p2 p3 value p4|p1 text|text]; cbn [well_formed_line line_text].
  - intros [H1 [H2 [H3 [H4 [[_ [_ [_ [Hkline _]]]] Hvalue]]]]].
    unfold padded_line. repeat (apply Forall_app; split);
      try (apply blank_one_line; assumption); try assumption.
    change (58 :: p3 ++ value ++ p4) with ([58] ++ p3 ++ value ++ p4).
    repeat (apply Forall_app; split);
      try (apply blank_one_line; assumption); try assumption.
    + now constructor.
    + destruct Hvalue as [->|[_ [Hvline _]]]; [constructor|exact Hvline].
  - intros [H1 Htext]. apply Forall_app. split; [now apply blank_one_line|].
    constructor; [reflexivity|exact Htext].
  - now intros [_ Htext].
Qed.

Lemma entries_file (lines : list cred_line) :
  Forall well_formed_line lines ->
  entries (file_text lines) = flat_map written_entry lines.
Proof.
  induction 1 as [|l lines Hl _ IH]; [reflexivity|].
  unfold entries, splitlines in *. cbn [file_text flat_map].
  rewrite <- app_assoc. cbn [app].
  rewrite splitlines_from_line by (now apply line_text_one_line).
  cbn [rev app flat_map]. fold (file_text lines). rewrite IH. f_equal.
  destruct l as [p1 key p2 p3 value p4|p1 text|text]; cbn [line_text written_entry].
  - now rewrite (entry_of_setting _ _ _ _ _ _ Hl).
  - destruct Hl as [H1 _]. now rewrite (entry_of_comment p1 text H1).
  - destruct Hl as [Hcolon _]. now rewrite (entry_of_plain text Hcolon).
Qed.

Lemma last_value_stored (name : str) (lines : list cred_line) :
  last_value name (flat_map written_entry lines) = stored name lines.
Proof.
  induction lines as [|l lines IH]; [reflexivity|].
  cbn [flat_map stored]. rewrite last_value_app, IH.
  destruct (stored name lines); [reflexivity|]. cbn [or_else].
  destruct l; reflexivity.
Qed.

(** C4: for a well-formed credentials file, when it stores no API key or
    no tenant id, or an empty one, [read_creds] fails with its [ValueError];
    when it stores both, [read_creds] returns exactly the two values as they
    are written in the file, the last one when a key is set more than
    once. *)
Theorem read_creds_entries (path : str) (lines : list cred_line) (w : world) :
  Forall well_formed_line lines ->
  find_file path (files w) = Some (file_text lines) ->
  let api_key := stored (lit "apikey") lines in
  let tenant_id := stored (lit "tenantid") lines in
  (api_key = None \/ api_key = Some [] \/ tenant_id = None \/ tenant_id = Some [] ->
   read_creds path w = (w, Raise creds_error))
  /\ (forall k t,
        api_key = Some k -> k <> [] -> tenant_id = Some t -> t <> [] ->
        read_creds path w = (w, Ok (k, t))).
Proof.
  intros Hlines Hfile api_key tenant_id.
  rewrite (read_creds_run path _ w Hfile). unfold entry.
  rewrite (entries_file lines Hlines), !last_value_stored.
  fold api_key. fold tenant_id. clearbody api_key tenant_id. split.
  - intros [H|[H|[H|H]]]; subst; try reflexivity;
      destruct api_key as [[|k0 k]|]; reflexivity.
  - intros k t Hk Hk' Ht Ht'. subst.
    destruct k; [congruence|]. destruct t; [congruence|]. reflexivity.
Qed.

End CredentialFile.

(** ** Closed instances of the further properties *)

Lemma wide_limit_is_no_limit_witness :
  build_table (P := offline) [VDict [(lit "name", VStr (lit "sys1"))]] (Some 5)
  = build_table (P := offline) [VDict [(lit "name", VStr (lit "sys1"))]] None.
Proof.
  apply (wide_limit_is_no_limit (P := offline)). discriminate.
Defined.

Lemma nothing_to_render_witness :
  build_table (P := offline) [VInt 1; VNone] (Some 0) = Ok empty_table.
Proof.
  apply (nothing_to_render (P := offline)). right. exists 0. split; [reflexivity|discriminate].
Defined.

Lemma item_that_is_no_record_witness :
  build_table (P := offline) [VDict [(lit "name", VStr (lit "sys1"))]; VInt 7] None
  = Raise (Builtin AttributeError).
Proof.
  exact (proj1 (item_that_is_no_record (P := offline)
                  [[(lit "name", VStr (lit "sys1"))]] (VInt 7) [] eq_refl)).
Defined.

Lemma other_fields_ignored_witness :
  build_table (P := offline)
    [VDict [(lit "name", VStr (lit "sys1")); (lit "vendor", VStr (lit "IBM"))];
     VDict [(lit "name", VStr (lit "sys2"))]] (Some 1)
  = Ok (lit "Name | Last Successful Probe (UTC) | Last Successful Monitor (UTC) | Condition"
        ++ newline
        ++ lit "-----+-----------------------------+-------------------------------+----------"
        ++ newline
        ++ lit "sys1 | " ++ [226; 8364; 8221] ++ repeat_char 32 24 ++ lit " | "
        ++ [226; 8364; 8221] ++ repeat_char 32 26 ++ lit " |          ").
Proof.
  apply (other_fields_ignored (P := offline) (lit "vendor") (VStr (lit "IBM"))
           [(lit "name", VStr (lit "sys1"))] [] [] [[(lit "name", VStr (lit "sys2"))]]
           (Some 1)).
  cbn. intros [H|[H|[H|[H|[]]]]]; discriminate H.
Defined.

Lemma unconvertible_timestamp_as_text_witness :
  _format_ts (P := offline) (VStr (lit "yesterday")) = lit "yesterday".
Proof.
  apply (proj1 (unconvertible_timestamp_as_text (P := offline))). discriminate.
Defined.

Lemma unreachable_server_witness :
  request_json (P := offline) (lit "https://host/x") (lit "GET") [] None 30 empty_world
  = (after empty_world (Sent (make_request (lit "https://host/x") (lit "GET") [] None 30)),
     Raise (RuntimeError (lit "Failed to reach https://host/x: down"))).
Proof.
  apply (unreachable_server (P := offline) (lit "https://host/x") (lit "GET") [] None 30
           None (lit "down") empty_world eq_refl eq_refl).
Defined.

Lemma successful_answer_witness :
  request_json (P := answering token_response) (lit "https://host/x") (lit "GET") []
    None 30 empty_world
  = (after empty_world (Sent (make_request (lit "https://host/x") (lit "GET") [] None 30)),
     Ok token_response).
Proof.
  apply (successful_answer (P := answering token_response) (lit "https://host/x")
           (lit "GET") [] None 30 None 200 None (lit "{}") (lit "{}") empty_world
           eq_refl eq_refl).
  - lia.
  - now left.
  - reflexivity.
Defined.

Lemma undecodable_answer_witness :
  request_json (P := garbled) (lit "https://host/x") (lit "GET") [] None 30 empty_world
  = (after empty_world (Sent (make_request (lit "https://host/x") (lit "GET") [] None 30)),
     Raise (Builtin UnicodeDecodeError)).
Proof.
  apply (undecodable_answer (P := garbled) (lit "https://host/x") (lit "GET") [] None 30
           None 200 None [255] empty_world eq_refl eq_refl).
  - lia.
  - now left.
  - intros text. discriminate.
Defined.

Lemma unencodable_body_witness :
  request_json (P := offline) (lit "https://host/x") (lit "POST") []
    (Some (inl lone_surrogate)) 30 empty_world
  = (empty_world, Raise (Builtin UnicodeEncodeError)).
Proof.
  apply (unencodable_body (P := offline)). intros octets. discriminate.
Defined.

Lemma infinite_expiration_overflows_witness :
  obtain_token (P := answering endless_response) (lit "key") (lit "tenant") empty_world
  = (extended empty_world [Sent (token_request (lit "key") (lit "tenant"))],
     Raise (Builtin OverflowError)).
Proof.
  apply (infinite_expiration_overflows (P := answering endless_response)
           (lit "key") (lit "tenant") empty_world _ endless_response
           (VDict [(lit "token", VStr (lit "T"));
                   (lit "expiration", VFloat (S754_infinity false))])
           (VStr (lit "T")) false); reflexivity.
Defined.

Lemma unencodable_storage_type_witness :
  fetch_storage_systems (P := offline) (lit "t-1") (VStr (lit "T")) (Some lone_surrogate)
    empty_world
  = (empty_world, Raise (Builtin UnicodeEncodeError)).
Proof.
  apply (unencodable_storage_type (P := offline)); [discriminate|].
  intros octets. discriminate.
Defined.

Lemma storage_type_cannot_inject_witness :
  exists quoted,
    storage_systems_url (lit "t-1") (Some (lit "a&b=c"))
    = Ok (API_BASE ++ STORAGE_SYSTEMS_PATH (lit "t-1") ++ lit "?storage-type=" ++ quoted)
    /\ Forall quoted_char quoted
    /\ forall c, In c quoted -> ~ In c query_delimiters.
Proof.
  apply (storage_type_cannot_inject (lit "t-1") (lit "a&b=c") (lit "a&b=c"));
    [discriminate|reflexivity].
Defined.

Lemma quiet_run_prints_nothing_witness :
  In (Printed (lit "before")) (trace busy_world).
Proof.
  apply (quiet_run_prints_nothing (P := offline) silent busy_world (lit "before"));
    [reflexivity | reflexivity | now left].
Defined.

Lemma other_files_untouched_witness :
  find_file (lit "notes") (files (fst (main (P := answering token_response)
                                         every_output busy_world)))
  = find_file (lit "notes") (files busy_world).
Proof.
  apply (proj1 (other_files_untouched (P := answering token_response)
                  every_output busy_world)); discriminate.
Defined.

Lemma at_most_two_requests_witness :
  exists events,
    trace (fst (main (P := answering token_response) every_output busy_world))
    = trace busy_world ++ events
    /\ (requests events <= 2)%nat
    /\ forall r,
         In (Sent r) events ->
         startswith (lit "https://dev.insights.ibm.com") (req_url r) = true
         /\ hd_error (req_headers r) = Some (lit "Accept", VStr (lit "application/json")).
Proof.
  exact (at_most_two_requests (P := answering token_response) every_output busy_world).
Defined.

Lemma main_returns_zero_witness :
  main (P := two_answers token_response one_system) every_output busy_world
  = (fst (main (P := two_answers token_response one_system) every_output busy_world),
     Ok 0)
  /\ 0 = 0.
Proof.
  split; [reflexivity|].
  apply (main_returns_zero (P := two_answers token_response one_system)
           every_output busy_world
           (fst (main (P := two_answers token_response one_system) every_output busy_world))
           0).
  reflexivity.
Defined.

Lemma creds_failure_stops_run_witness :
  main (P := offline) every_output empty_world
  = (empty_world, Raise (FileNotFoundError (lit "Credential file not found: creds"))).
Proof.
  apply (creds_failure_stops_run (P := offline)). reflexivity.
Defined.

Lemma token_must_be_text_witness :
  main (P := answering numeric_token_response) every_output creds_world
  = (extended creds_world
       [Printed (lit "Using tenant: t-1"); Sent (token_request (lit "abc") (lit "t-1"))],
     Raise (Builtin TypeError)).
Proof.
  apply (proj1 (token_must_be_text (P := answering numeric_token_response)
                  every_output creds_world _ (lit "abc") (lit "t-1") (lit "token")
                  (VInt 5) 1700000000000 eq_refl eq_refl eq_refl
                  ltac:(intros s; discriminate))).
Defined.

Lemma payload_must_be_object_witness :
  snd (main (P := two_answers token_response (VList [])) every_output creds_world)
  = Raise (Builtin AttributeError).
Proof.
  rewrite (payload_must_be_object (P := two_answers token_response (VList []))
             every_output creds_world _ _ _ (lit "abc") (lit "t-1") (VStr (lit "T"))
             (VList []) 1700000000000 eq_refl eq_refl eq_refl eq_refl eq_refl).
  reflexivity.
Defined.

Lemma missing_creds_file_witness :
  read_creds (P := offline) (lit "creds") empty_world
  = (empty_world, Raise (FileNotFoundError (lit "Credential file not found: creds"))).
Proof.
  apply (missing_creds_file (P := offline)). reflexivity.
Defined.

Lemma clean_abc : clean (lit "abc").
Proof. repeat split; try discriminate. repeat constructor. Defined.

Lemma clean_t1 : clean (lit "t-1").
Proof. repeat split; try discriminate. repeat constructor. Defined.

Lemma blank_spaces_2 : blank (lit "  ").
Proof. repeat constructor. Defined.

Lemma blank_empty : blank [].
Proof. constructor. Defined.

Lemma read_creds_round_trip_witness :
  read_creds (P := offline) (lit "creds") creds_world
  = (creds_world, Ok (lit "abc", lit "t-1")).
Proof.
  apply (read_creds_round_trip (P := offline) (lit "creds") (lit "abc") (lit "t-1")
           creds_world clean_abc clean_t1 eq_refl).
Defined.

Lemma read_creds_tolerates_layout_witness :
  read_creds (P := offline) (lit "creds")
    {| files := [(lit "creds",
                  lit "  ApiKey  :  abc  " ++ 10 :: lit "TENANTID:t-1" ++ [10])];
       trace := [] |}
  = ({| files := [(lit "creds",
                   lit "  ApiKey  :  abc  " ++ 10 :: lit "TENANTID:t-1" ++ [10])];
        trace := [] |},
     Ok (lit "abc", lit "t-1")).
Proof.
  apply (read_creds_tolerates_layout (P := offline) (lit "creds") _
           (lit "ApiKey") (lit "TENANTID") (lit "abc") (lit "t-1")
           (lit "  ") (lit "  ") (lit "  ") (lit "  ") [] [] [] []).
  - split; reflexivity.
  - split; reflexivity.
  - exact clean_abc.
  - exact clean_t1.
  - repeat (constructor; [first [exact blank_spaces_2 | exact blank_empty]|]).
    constructor.
  - reflexivity.
Defined.

Lemma later_entry_wins_witness :
  read_creds (P := offline) (lit "creds")
    {| files := [(lit "creds", creds_file (lit "old") (lit "t-1")
                               ++ lit "apikey:" ++ lit "abc" ++ [10])];
       trace := [] |}
  = ({| files := [(lit "creds", creds_file (lit "old") (lit "t-1")
                                ++ lit "apikey:" ++ lit "abc" ++ [10])];
        trace := [] |},
     Ok (lit "abc", lit "t-1")).
Proof.
  apply (later_entry_wins (P := offline) (lit "creds")
           (creds_file (lit "old") (lit "t-1")) (lit "abc") (lit "t-1")).
  - right. reflexivity.
  - exact clean_abc.
  - reflexivity.
  - discriminate.
  - reflexivity.
Defined.

Lemma skipped_line_changes_nothing_witness :
  snd (read_creds (P := offline) (lit "creds")
         {| files := [(lit "creds", lit "apikey:abc" ++ [10] ++ lit "# tenant"
                                    ++ 10 :: lit "tenantid:t-1" ++ [10])];
            trace := [] |})
  = snd (read_creds (P := offline) (lit "creds")
           {| files := [(lit "creds", lit "apikey:abc" ++ [10]
                                      ++ lit "tenantid:t-1" ++ [10])];
              trace := [] |}).
Proof.
  apply (skipped_line_changes_nothing (P := offline) (lit "creds")
           (lit "apikey:abc" ++ [10]) (lit "# tenant") (lit "tenantid:t-1" ++ [10])).
  - right. reflexivity.
  - repeat constructor.
  - right. left. reflexivity.
  - reflexivity.
  - reflexivity.
Defined.

Lemma sample_lines_well_formed : Forall well_formed_line sample_lines.
Proof.
  unfold sample_lines.
  repeat (apply Forall_cons; [|]); try apply Forall_nil;
    cbn [well_formed_line]; unfold blank, key_name, clean;
    repeat match goal with
           | |- _ /\ _ => split
           | |- Forall _ _ => repeat constructor
           | |- _ <> _ => discriminate
           | |- _ = _ => reflexivity
           | |- [] = [] \/ _ => left; reflexivity
           | |- _ \/ _ => right
           end.
Defined.

Lemma read_creds_entries_witness :
  read_creds (P := offline) (lit "creds") sample_world
  = (sample_world, Ok (lit "a:b c", lit "t-1")).
Proof.
  apply (proj2 (read_creds_entries (P := offline) (lit "creds") sample_lines sample_world
                  sample_lines_well_formed eq_refl));
    [reflexivity | discriminate | reflexivity | discriminate].
Defined.
